(** * Anime analytics dashboard: the data engine of [app.py]

    A shallow embedding of the data transformations of [src/app.py]
    (record parsing, the year/score filter, the hidden-gems, genre-trend
    and summary aggregates, title search and ranking), with the
    properties its specification states about them.

    Conventions of the embedding.
    - A pandas cell that can be missing is an [option]: [None] is NaN.
    - float64 columns ([score], the derived [rec_ratio], medians) are exact
      rationals [Q]; integer-valued columns are [Z].
    - A DataFrame is the list of its rows, in index order.
    - Python exceptions are the left summand of [exn + A]. *)

From Stdlib Require Import ZArith QArith List String Ascii Bool Lia Lqa.
From Stdlib Require Import Permutation Sorted.
From stdpp Require Import gmap.
Import ListNotations.

Local Open Scope string_scope.
Local Open Scope list_scope.
Local Open Scope Z_scope.

(** ** Exceptions *)

Inductive exn : Type :=
| ValueError
| SyntaxError
| IndexError
| ReError.

Definition M (A : Type) : Type := (exn + A)%type.

Definition ret {A} (a : A) : M A := inr a.
Definition raise {A} (e : exn) : M A := inl e.
Definition bind {A B} (m : M A) (k : A -> M B) : M B :=
  match m with
  | inl e => inl e
  | inr a => k a
  end.

Notation "'let*' x ':=' m 'in' k" := (bind m (fun x => k))
  (at level 10, x name, m at level 100, k at level 200).

(** [try: m except: d] is Python's [try ... except: ...] with a bare
    handler around an expression. *)
Definition try_except {A} (m : M A) (d : A) : A :=
  match m with
  | inl _ => d
  | inr a => a
  end.

(** ** Python values reaching the list-field decoder

    Scalars, and flat lists and tuples of scalars. *)

Inductive atom : Type :=
| ANone
| ANaN
| ABool (b : bool)
| AInt (z : Z)
| AFloat (q : Q)
| AStr (s : string).

Inductive pyval : Type :=
| PAtom (a : atom)
| PList (l : list atom)
| PTuple (l : list atom).

(** [pd.isna]: a scalar gives a bool, a list gives an array of bools
    (one per element); any other object gives [False]. *)
Inductive isna_result : Type :=
| IsnaScalar (b : bool)
| IsnaArray (bs : list bool).

Definition atom_isna (a : atom) : bool :=
  match a with
  | ANone | ANaN => true
  | _ => false
  end.

Definition pd_isna (val : pyval) : isna_result :=
  match val with
  | PAtom a => IsnaScalar (atom_isna a)
  | PList l => IsnaArray (List.map atom_isna l)
  | PTuple _ => IsnaScalar false
  end.

(** Truth value of the result of [pd.isna] in a condition. numpy refuses
    the truth value of an array unless it has exactly one element (for the
    empty array older numpy versions answer [False] with a warning; the
    decoder returns the empty list either way). *)
Definition truth (r : isna_result) : M bool :=
  match r with
  | IsnaScalar b => ret b
  | IsnaArray [b] => ret b
  | IsnaArray _ => raise ValueError
  end.

(** [val in ['[]', '']] *)
Definition in_empty_literals (val : pyval) : bool :=
  match val with
  | PAtom (AStr s) => String.eqb s "[]" || String.eqb s EmptyString
  | _ => false
  end.

Definition is_str (val : pyval) : bool :=
  match val with
  | PAtom (AStr _) => true
  | _ => false
  end.

Definition is_list (val : pyval) : bool :=
  match val with
  | PList _ => true
  | _ => false
  end.

(** ** [safe_eval] (app.py, lines 25-34) *)

Section Decoder.

(** [ast.literal_eval], a library function: a value or an exception. *)
Variable literal_eval : string -> M pyval.

(** The body of the [try] block. *)
Definition safe_eval_try (val : pyval) : M pyval :=
  let* na := truth (pd_isna val) in
  if na || in_empty_literals val then ret (PList [])
  else
    match val with
    | PAtom (AStr s) => literal_eval s
    | PList _ => ret val
    | _ => ret (PList [])
    end.

Definition safe_eval (val : pyval) : pyval :=
  try_except (safe_eval_try val) (PList []).

End Decoder.

(** ** A model of [ast.literal_eval] on a fragment of Python's literals

    The fragment: [None], [True], [False], decimal integers with an
    optional sign, quoted strings without backslashes, and flat lists of
    these. On every text the model accepts, Python returns the same value;
    texts outside the fragment are rejected here although Python accepts
    more literal forms (floats, tuples, dicts, nested containers, escapes).
    The general theorems about [safe_eval] hold for every [literal_eval];
    this model serves to run the decoder on concrete cells. *)

Definition is_digit (c : ascii) : bool :=
  let n := nat_of_ascii c in (48 <=? n)%nat && (n <=? 57)%nat.

Definition digit_val (c : ascii) : Z := Z.of_nat (nat_of_ascii c) - 48.

Fixpoint skip_ws (s : list ascii) : list ascii :=
  match s with
  | c :: t => if (Ascii.eqb c " " || Ascii.eqb c "009")%bool then skip_ws t else s
  | [] => []
  end.

(** Digits at the head of [s], their value accumulated on [acc]. *)
Fixpoint read_digits (acc : Z) (s : list ascii) : Z * list ascii :=
  match s with
  | c :: t => if is_digit c then read_digits (10 * acc + digit_val c) t else (acc, s)
  | [] => (acc, [])
  end.

(** The characters up to the closing quote [q]. *)
Fixpoint read_quoted (q : ascii) (s : list ascii) : M (list ascii * list ascii) :=
  match s with
  | [] => raise SyntaxError
  | c :: t =>
      if Ascii.eqb c q then ret ([], t)
      else if (Ascii.eqb c "\" || Ascii.eqb c "010")%bool then raise SyntaxError
      else let* r := read_quoted q t in ret (c :: fst r, snd r)
  end.

Definition is_ident_char (c : ascii) : bool :=
  let n := nat_of_ascii c in
  (is_digit c || Ascii.eqb c "_" || Ascii.eqb c "."
   || ((65 <=? n)%nat && (n <=? 90)%nat)
   || ((97 <=? n)%nat && (n <=? 122)%nat)
   || (128 <=? n)%nat)%bool.

(** A token such as a number or a keyword ends where no identifier
    character follows. *)
Definition token_end (s : list ascii) : bool :=
  match s with
  | c :: _ => negb (is_ident_char c)
  | [] => true
  end.

Definition read_int (sign : Z) (s : list ascii) : M (atom * list ascii) :=
  match s with
  | c :: t =>
      if is_digit c then
        if (Ascii.eqb c "0" && negb (token_end t))%bool then raise SyntaxError
        else
          let '(n, rest) := read_digits 0 s in
          if token_end rest then ret (AInt (sign * n), rest) else raise SyntaxError
      else raise SyntaxError
  | [] => raise SyntaxError
  end.

Fixpoint strip_prefix (p s : list ascii) : option (list ascii) :=
  match p, s with
  | [], _ => Some s
  | c :: p', d :: s' => if Ascii.eqb c d then strip_prefix p' s' else None
  | _ :: _, [] => None
  end.

Definition keyword (k : string) (s : list ascii) : option (list ascii) :=
  match strip_prefix (list_ascii_of_string k) s with
  | Some rest => if token_end rest then Some rest else None
  | None => None
  end.

Definition parse_atom (s : list ascii) : M (atom * list ascii) :=
  match s with
  | [] => raise SyntaxError
  | c :: t =>
      if (Ascii.eqb c "'" || Ascii.eqb c "034")%bool then
        let* r := read_quoted c t in ret (AStr (string_of_list_ascii (fst r)), snd r)
      else if Ascii.eqb c "-" then read_int (-1) t
      else if Ascii.eqb c "+" then read_int 1 t
      else if is_digit c then read_int 1 s
      else
        match keyword "None" s, keyword "True" s, keyword "False" s with
        | Some rest, _, _ => ret (ANone, rest)
        | _, Some rest, _ => ret (ABool true, rest)
        | _, _, Some rest => ret (ABool false, rest)
        | _, _, _ => raise SyntaxError
        end
  end.

(** The elements of a list display after its opening bracket: [s] starts
    at an element; the result is the elements and the text after the
    closing bracket. Every element consumes a character, so the length of
    the text bounds the recursion. *)
Fixpoint parse_items (fuel : nat) (s : list ascii) : M (list atom * list ascii) :=
  match fuel with
  | O => raise SyntaxError
  | S fuel' =>
      let* r := parse_atom (skip_ws s) in
      match skip_ws (snd r) with
      | c :: t =>
          if Ascii.eqb c "]" then ret ([fst r], t)
          else if Ascii.eqb c "," then
            let* r' := parse_items fuel' t in ret (fst r :: fst r', snd r')
          else raise SyntaxError
      | [] => raise SyntaxError
      end
  end.

Definition parse_value (s : list ascii) : M (pyval * list ascii) :=
  match s with
  | c :: t =>
      if Ascii.eqb c "[" then
        match skip_ws t with
        | d :: t' =>
            if Ascii.eqb d "]" then ret (PList [], t')
            else let* r := parse_items (List.length t) t in ret (PList (fst r), snd r)
        | [] => raise SyntaxError
        end
      else let* r := parse_atom s in ret (PAtom (fst r), snd r)
  | [] => raise SyntaxError
  end.

Definition literal_eval (text : string) : M pyval :=
  let* r := parse_value (skip_ws (list_ascii_of_string text)) in
  match skip_ws (snd r) with
  | [] => ret (fst r)
  | _ :: _ => raise SyntaxError
  end.


(** ** Record parsing in [load_data] (app.py, lines 23-37) *)

Record raw_row : Type := {
  start_date : option string;
  genres : pyval;
  studios : pyval
}.

Section Loader.

(** [pd.to_datetime(..., errors='coerce')] on one cell, followed by
    [.dt.year]: the year of the parsed date, [None] (NaT) when the
    text does not parse. *)
Variable to_datetime_year : string -> option Z.
Variable literal_eval' : string -> M pyval.

Definition load_year (r : raw_row) : option Z :=
  match start_date r with
  | Some s => to_datetime_year s
  | None => None
  end.

Definition load_genres_list (r : raw_row) : pyval :=
  safe_eval literal_eval' (genres r).

Definition load_studios_list (r : raw_row) : pyval :=
  safe_eval literal_eval' (studios r).

End Loader.

(** ** Generic column operations *)

Section Sorting.

Context {A : Type}.

(** Insertion of [x] before the first element it may precede. *)
Fixpoint insert_by (leb : A -> A -> bool) (x : A) (l : list A) : list A :=
  match l with
  | [] => [x]
  | y :: l' => if leb x y then x :: l else y :: insert_by leb x l'
  end.

(** A stable sort: among elements that may precede each other, the one
    met first stays first. *)
Fixpoint sort_by (leb : A -> A -> bool) (l : list A) : list A :=
  match l with
  | [] => []
  | x :: l' => insert_by leb x (sort_by leb l')
  end.

End Sorting.

Section Counting.

Context {A : Type}.
Variable eqb : A -> A -> bool.

(** Number of elements of [l] equal to [x] ([list.count]). *)
Definition count_eq (x : A) (l : list A) : nat :=
  List.length (List.filter (eqb x) l).

(** Distinct values in order of first appearance ([Series.unique]). *)
Fixpoint unique (l : list A) : list A :=
  match l with
  | [] => []
  | x :: l' => x :: List.filter (fun y => negb (eqb x y)) (unique l')
  end.

(** [Series.value_counts()]: each distinct value with its number of
    occurrences, by descending count; equal counts keep the order of
    first appearance. *)
Definition value_counts (l : list A) : list (A * nat) :=
  sort_by (fun a b => (snd b <=? snd a)%nat)
          (List.map (fun x => (x, count_eq x l)) (unique l)).

End Counting.

(** [index[0]] *)
Definition index0 {A} (l : list A) : M A :=
  match l with
  | x :: _ => ret x
  | [] => raise IndexError
  end.

Definition notna {A} (o : option A) : bool :=
  match o with
  | Some _ => true
  | None => false
  end.

Fixpoint dropna {A} (l : list (option A)) : list A :=
  match l with
  | [] => []
  | Some x :: l' => x :: dropna l'
  | None :: l' => dropna l'
  end.

(** Comparisons of a cell with a bound: false on a missing cell. *)
Definition geZ (a : option Z) (b : Z) : bool :=
  match a with
  | Some x => b <=? x
  | None => false
  end.

Definition leZ (a : option Z) (b : Z) : bool :=
  match a with
  | Some x => x <=? b
  | None => false
  end.

Definition gtZ (a : option Z) (b : Z) : bool :=
  match a with
  | Some x => b <? x
  | None => false
  end.

Definition geQ (a : option Q) (b : Q) : bool :=
  match a with
  | Some x => Qle_bool b x
  | None => false
  end.

Definition Qlt_bool (x y : Q) : bool := negb (Qle_bool y x).

(** Comparisons of a cell with a scalar that may itself be NaN. *)
Definition lt_cell (a b : option Q) : bool :=
  match a, b with
  | Some x, Some y => Qlt_bool x y
  | _, _ => false
  end.

Definition gt_cell (a b : option Q) : bool := lt_cell b a.

(** Element-wise [==] on a column of integers: NaN equals nothing. *)
Definition eq_cell (a b : option Z) : bool :=
  match a, b with
  | Some x, Some y => x =? y
  | _, _ => false
  end.

(** [Series.median()]: missing cells are skipped; the middle value of the
    sorted rest, or the mean of the two middle values; NaN on an empty
    column. *)
Definition median (col : list (option Q)) : option Q :=
  let v := sort_by Qle_bool (dropna col) in
  let n := List.length v in
  if (n =? 0)%nat then None
  else if Nat.odd n then nth_error v (n / 2)
  else
    match nth_error v (n / 2 - 1), nth_error v (n / 2) with
    | Some a, Some b => Some ((a + b) / 2)%Q
    | _, _ => None
    end.

(** [Series.mean()]: missing cells are skipped; NaN when nothing is left.
    The number given here is the exact mean; pandas rounds it to float64,
    so what is stated of a mean is whether it is present, not how it
    compares with a bound. *)
Definition Qsum (l : list Q) : Q := List.fold_right Qplus 0%Q l.

Definition mean (col : list (option Q)) : option Q :=
  let v := dropna col in
  match v with
  | [] => None
  | _ :: _ => Some (Qsum v / inject_Z (Z.of_nat (List.length v)))%Q
  end.

(** [Series.sum()]: missing cells count for nothing. *)
Definition Zsum (col : list (option Z)) : Z :=
  List.fold_right Z.add 0 (dropna col).

Section Ranking.

Context {A : Type}.
Variable key : A -> option Q.

(** [x] may precede [y] in descending order of a present key. *)
Definition desc_leb (x y : A) : bool :=
  match key x, key y with
  | Some a, Some b => Qle_bool b a
  | Some _, None => true
  | None, Some _ => false
  | None, None => true
  end.

(** [sort_values(key, ascending=False)]: descending by [key], rows
    without a key last (na_position='last'). Rows with equal keys are
    left in their original order here; pandas fixes no order for them. *)
Definition sort_values_desc (l : list A) : list A :=
  sort_by desc_leb (List.filter (fun x => notna (key x)) l)
  ++ List.filter (fun x => negb (notna (key x))) l.

(** [nlargest(n, key)] with keep='first': the first [n] rows in
    descending order of [key], the first occurrences winning ties. *)
Definition nlargest (n : nat) (l : list A) : list A :=
  firstn n (sort_values_desc l).

(** [head(n)] *)
Definition head (n : nat) (l : list A) : list A := firstn n l.

End Ranking.

(** ** The normalized dataset *)

Record row : Type := {
  title : option string;
  score : option Q;
  year : option Z;
  type : option string;
  episodes : option Z;
  members : option Z;
  favorites : option Z;
  recommendation_count : option Z;
  genres_list : list string;
  studios_list : list string
}.

(** ** Filter engine (app.py, lines 53-57) *)

Definition filter_mask (year_range : Z * Z) (score_min : Q) (r : row) : bool :=
  geZ (year r) (fst year_range)
  && leZ (year r) (snd year_range)
  && geQ (score r) score_min.

Definition df_filtered (df : list row) (year_range : Z * Z) (score_min : Q)
  : list row :=
  List.filter (filter_mask year_range score_min) df.

(** ** Summary metrics (app.py, lines 63-73) *)

Definition total_anime (dff : list row) : nat := List.length dff.

Definition avg_score (dff : list row) : option Q := mean (List.map score dff).

(** [df_filtered['members'].sum()/1e6] *)
Definition total_members (dff : list row) : Q :=
  (inject_Z (Zsum (List.map members dff)) / 1000000)%Q.

Definition genres_flat (dff : list row) : list string :=
  List.flat_map genres_list dff.

Definition top_genre (dff : list row) : M string :=
  match genres_flat dff with
  | _ :: _ => index0 (List.map fst (value_counts String.eqb (genres_flat dff)))
  | [] => ret "N/A"
  end.

(** ** Top studios (app.py, lines 89-96): nothing is drawn when no studio
    is listed. *)

Definition studios_flat (dff : list row) : list string :=
  List.flat_map studios_list dff.

Definition top_studios (dff : list row) : option (list (string * nat)) :=
  match studios_flat dff with
  | _ :: _ => Some (head 10 (value_counts String.eqb (studios_flat dff)))
  | [] => None
  end.

(** ** Hidden gems (app.py, lines 101-130) *)

Definition gems_mask (r : row) : bool :=
  notna (recommendation_count r) && gtZ (members r) 100.

Definition df_gems (dff : list row) : list row := List.filter gems_mask dff.

(** Element-wise division of two integer columns. A zero divisor (inf or
    NaN in pandas) does not occur under [gems_mask], which asks for more
    than 100 members; it is given as a missing cell. *)
Definition div_cell (a b : option Z) : option Q :=
  match a, b with
  | Some x, Some y => if y =? 0 then None else Some (inject_Z x / inject_Z y)%Q
  | _, _ => None
  end.

(** A row of [df_gems] after the column [rec_ratio] is added. *)
Record gem : Type := {
  gem_row : row;
  rec_ratio : option Q
}.

Definition add_rec_ratio (r : row) : gem :=
  {| gem_row := r;
     rec_ratio := div_cell (recommendation_count r) (members r) |}.

Definition members_cell (g : gem) : option Q :=
  option_map inject_Z (members (gem_row g)).

Definition median_members (gs : list gem) : option Q :=
  median (List.map members_cell gs).

Definition median_ratio (gs : list gem) : option Q :=
  median (List.map rec_ratio gs).

Definition hidden_mask (gs : list gem) (g : gem) : bool :=
  lt_cell (members_cell g) (median_members gs)
  && gt_cell (rec_ratio g) (median_ratio gs).

(** The columns shown: [['title', 'score', 'members', 'rec_ratio']]. *)
Record hidden_row : Type := {
  hidden_title : option string;
  hidden_score : option Q;
  hidden_members : option Z;
  hidden_rec_ratio : option Q
}.

Definition hidden_columns (g : gem) : hidden_row :=
  {| hidden_title := title (gem_row g);
     hidden_score := score (gem_row g);
     hidden_members := members (gem_row g);
     hidden_rec_ratio := rec_ratio g |}.

(** The rows picked, before the projection on the shown columns. *)
Definition hidden_gems (gs : list gem) : list gem :=
  nlargest rec_ratio 10 (List.filter (hidden_mask gs) gs).

(** The table [hidden]; [None] when the block under
    [if len(df_gems) > 0] is skipped. *)
Definition hidden (dff : list row) : option (list hidden_row) :=
  let gs := List.map add_rec_ratio (df_gems dff) in
  if (0 <? List.length gs)%nat
  then Some (List.map hidden_columns (hidden_gems gs))
  else None.

(** ** Genre trends (app.py, lines 135-153) *)

Definition df_trends (dff : list row) : list row :=
  List.filter (fun r => (0 <? List.length (genres_list r))%nat) dff.

(** [(year // 10) * 10] *)
Definition decade_of (r : row) : option Z :=
  option_map (fun y => (y / 10) * 10) (year r).

Definition all_genres (dff : list row) : list string :=
  List.flat_map genres_list (df_trends dff).

Definition top_genres (dff : list row) : list string :=
  List.map fst (head 6 (value_counts String.eqb (all_genres dff))).

Definition option_Z_eqb (a b : option Z) : bool :=
  match a, b with
  | Some x, Some y => x =? y
  | None, None => true
  | _, _ => false
  end.

(** Ascending order of decades for [sorted]; a NaN decade, which no row of
    a filtered dataset has, is put last. *)
Definition decade_leb (a b : option Z) : bool :=
  match a, b with
  | Some x, Some y => x <=? y
  | Some _, None => true
  | None, Some _ => false
  | None, None => true
  end.

(** [sorted(df_trends['decade'].unique())] *)
Definition decades (dff : list row) : list (option Z) :=
  sort_by decade_leb (unique option_Z_eqb (List.map decade_of (df_trends dff))).

Record trend_cell : Type := {
  decade : option Z;
  genre : string;
  count : nat
}.

(** [df_trends[df_trends['decade'] == decade]] *)
Definition decade_data (dff : list row) (d : option Z) : list row :=
  List.filter (fun r => eq_cell (decade_of r) d) (df_trends dff).

Definition decade_genres (dff : list row) (d : option Z) : list string :=
  List.flat_map genres_list (decade_data dff d).

(** The two nested loops filling [genre_counts]. *)
Definition genre_counts_loop (dff : list row) (ds : list (option Z))
  (gs : list string) : list trend_cell :=
  List.flat_map
    (fun d =>
       List.map
         (fun g => {| decade := d; genre := g;
                      count := count_eq String.eqb g (decade_genres dff d) |})
         gs)
    ds.

(** The table [genre_df]; [None] when [if top_genres:] skips the block. *)
Definition genre_counts (dff : list row) : option (list trend_cell) :=
  match top_genres dff with
  | _ :: _ => Some (genre_counts_loop dff (decades dff) (top_genres dff))
  | [] => None
  end.

(** ** Type distribution and average score by type (app.py, 165-172) *)

(** [df_filtered['type'].value_counts().head(6)]: missing types are not
    counted. *)
Definition type_counts (dff : list row) : list (string * nat) :=
  head 6 (value_counts String.eqb (dropna (List.map type dff))).

(** [groupby('type')['score'].mean()]: one group per type, in ascending
    order of the type. *)
Definition type_groups (dff : list row) : list string :=
  sort_by String.leb (unique String.eqb (dropna (List.map type dff))).

Definition type_mean (dff : list row) (t : string) : option Q :=
  mean (List.map score
          (List.filter
             (fun r => match type r with
                       | Some t' => String.eqb t t'
                       | None => false
                       end) dff)).

Definition type_scores (dff : list row) : list (string * option Q) :=
  head 6 (sort_values_desc snd
            (List.map (fun t => (t, type_mean dff t)) (type_groups dff))).

(** ** Search (app.py, lines 181-197) *)

(** What a library call of which only a fragment is modelled does: it
    returns, it raises, or the input is outside the fragment and nothing
    is said about it. *)
Inductive outcome (A : Type) : Type :=
| Returns (a : A)
| Raises (e : exn)
| NotModelled.

Arguments Returns {A} a.
Arguments Raises {A} e.
Arguments NotModelled {A}.

(** Case folding of [re.IGNORECASE] on ASCII letters. Python folds all of
    Unicode; the model is exact on ASCII text only, and the general
    statements about matching are made for ASCII titles and queries. *)
Definition to_lower (c : ascii) : ascii :=
  let n := nat_of_ascii c in
  if ((65 <=? n)%nat && (n <=? 90)%nat)%bool then ascii_of_nat (n + 32) else c.

(** [str.contains(search, case=False, na=False)] reads [search] as a
    regular expression (pandas' default [regex=True]). The fragment of
    [re] modelled: ordinary characters, which stand for themselves, the
    dot, which stands for any character but a newline, and parentheses,
    which group without changing what is matched. *)
Inductive re_item : Type :=
| ReLit (c : ascii)
| ReAny.

(** The characters with a meaning of their own in a pattern. *)
Definition re_special (c : ascii) : bool :=
  existsb (Ascii.eqb c) (list_ascii_of_string ".^$*+?{}[]\|()").

Definition cons_item (i : re_item) (r : outcome (list re_item))
  : outcome (list re_item) :=
  match r with
  | Returns items => Returns (i :: items)
  | Raises e => Raises e
  | NotModelled => NotModelled
  end.

(** [re.compile] on the fragment, [depth] groups being open: a closing
    parenthesis with no group open, or a group still open at the end of
    the pattern, is [re.error]; any other operator is outside the
    fragment. *)
Fixpoint re_compile_from (depth : nat) (pat : list ascii)
  : outcome (list re_item) :=
  match pat with
  | [] =>
      match depth with
      | O => Returns []
      | S _ => Raises ReError
      end
  | c :: pat' =>
      if Ascii.eqb c "(" then re_compile_from (S depth) pat'
      else if Ascii.eqb c ")" then
        match depth with
        | O => Raises ReError
        | S depth' => re_compile_from depth' pat'
        end
      else if Ascii.eqb c "." then cons_item ReAny (re_compile_from depth pat')
      else if re_special c then NotModelled
      else cons_item (ReLit c) (re_compile_from depth pat')
  end.

Definition re_compile (pat : list ascii) : outcome (list re_item) :=
  re_compile_from 0 pat.

Definition item_matches (i : re_item) (c : ascii) : bool :=
  match i with
  | ReLit a => Ascii.eqb (to_lower a) (to_lower c)
  | ReAny => negb (Ascii.eqb c "010")
  end.

(** The items match a prefix of [s]. *)
Fixpoint match_here (items : list re_item) (s : list ascii) : bool :=
  match items, s with
  | [], _ => true
  | i :: items', c :: s' => item_matches i c && match_here items' s'
  | _ :: _, [] => false
  end.

(** [pattern.search(s) is not None]: a match starting somewhere in [s]. *)
Fixpoint re_search (items : list re_item) (s : list ascii) : bool :=
  match_here items s
  || match s with
     | [] => false
     | _ :: s' => re_search items s'
     end.

(** One cell of [str.contains(..., na=False)]. *)
Definition str_contains (items : list re_item) (t : option string) : bool :=
  match t with
  | Some s => re_search items (list_ascii_of_string s)
  | None => false
  end.

(** The table [results]: the filtered dataset itself when the query is
    empty; otherwise the rows whose title the compiled query matches, or
    the error of the compilation. *)
Definition results (search : string) (dff : list row) : outcome (list row) :=
  if String.eqb search EmptyString then Returns dff
  else
    match re_compile (list_ascii_of_string search) with
    | Returns items =>
        Returns (List.filter (fun r => str_contains items (title r)) dff)
    | Raises e => Raises e
    | NotModelled => NotModelled
    end.

(** The same lines for any regular-expression engine: [matcher search] is
    [re.compile(search, re.IGNORECASE)], which raises or gives the test
    [pattern.search(title) is not None]. *)
Definition results_by (matcher : string -> M (string -> bool))
  (search : string) (dff : list row) : M (list row) :=
  if String.eqb search EmptyString then ret dff
  else
    let* found := matcher search in
    ret (List.filter (fun r => match title r with
                               | Some t => found t
                               | None => false
                               end) dff).

(** The engine of the modelled fragment, as far as it goes. *)
Definition fragment_matcher (search : string) : outcome (string -> bool) :=
  match re_compile (list_ascii_of_string search) with
  | Returns items => Returns (fun t => re_search items (list_ascii_of_string t))
  | Raises e => Raises e
  | NotModelled => NotModelled
  end.

(** An engine is the modelled one on the queries of the fragment. *)
Definition extends_fragment (matcher : string -> M (string -> bool)) : Prop :=
  forall search,
    match fragment_matcher search with
    | Returns found =>
        exists found', matcher search = ret found'
                       /\ forall t, found' t = found t
    | Raises e => matcher search = raise e
    | NotModelled => True
    end.

(** The columns shown by the search tab. *)
Record display_row : Type := {
  display_title : option string;
  display_score : option Q;
  display_year : option Z;
  display_type : option string;
  display_episodes : option Z;
  display_members : option Z;
  display_favorites : option Z
}.

Definition display_cols (r : row) : display_row :=
  {| display_title := title r;
     display_score := score r;
     display_year := year r;
     display_type := type r;
     display_episodes := episodes r;
     display_members := members r;
     display_favorites := favorites r |}.

(** [results[available_cols].sort_values('score', ascending=False).head(100)] *)
Definition displayed (res : list row) : list display_row :=
  head 100 (sort_values_desc display_score (List.map display_cols res)).

(** ** The DataFrame objects of one session

    DataFrames are mutable objects; the script keeps several of them and
    adds columns to two. A store maps object identities to frames; a
    frame row is a dataset row with the cells of the columns added
    later. *)

Inductive cell : Type :=
| CellQ (q : option Q)
| CellZ (z : option Z).

Abbreviation frame := (list (row * list (string * cell))).

Abbreviation store := (gmap nat frame).

Definition frame_rows (f : frame) : list row := List.map fst f.

(** A new object holding [f]. *)
Definition new_frame (f : frame) (s : store) : nat * store :=
  let l := fresh (dom s) in (l, <[l := f]> s).

(** [obj[mask]]: boolean indexing builds a new frame. *)
Definition getitem_mask (mask : row -> bool) (l : nat) (s : store)
  : option (nat * store) :=
  f ← s !! l;
  Some (new_frame (List.filter (fun xr => mask (fst xr)) f) s).

(** [obj.copy()] *)
Definition copy (l : nat) (s : store) : option (nat * store) :=
  f ← s !! l;
  Some (new_frame f s).

Fixpoint set_col (name : string) (c : cell) (cols : list (string * cell))
  : list (string * cell) :=
  match cols with
  | [] => [(name, c)]
  | (n, c') :: cols' =>
      if String.eqb n name then (n, c) :: cols' else (n, c') :: set_col name c cols'
  end.

(** [obj[name] = column]: the object is changed in place. *)
Definition setitem (name : string) (col : row -> cell) (l : nat) (s : store)
  : option store :=
  f ← s !! l;
  Some (<[l := List.map (fun xr => (fst xr, set_col name (col (fst xr)) (snd xr))) f]> s).

Definition frame_len (l : nat) (s : store) : option nat :=
  f ← s !! l;
  Some (List.length f).

Record objects : Type := {
  obj_df_filtered : nat;
  obj_df_gems : nat;
  obj_df_trends : nat
}.

(** One run of the script body on the loaded frame [df]: the statements
    that create or change frames (lines 53-57, 101-107, 135-136). *)
Definition run (df : nat) (year_range : Z * Z) (score_min : Q) (s : store)
  : option (objects * store) :=
  '(m1, s) ← getitem_mask (filter_mask year_range score_min) df s;
  '(dff, s) ← copy m1 s;
  '(m2, s) ← getitem_mask gems_mask dff s;
  '(dg, s) ← copy m2 s;
  n ← frame_len dg s;
  s ← (if (0 <? n)%nat
       then setitem "rec_ratio" (fun r => CellQ (rec_ratio (add_rec_ratio r))) dg s
       else Some s);
  '(m3, s) ← getitem_mask (fun r => (0 <? List.length (genres_list r))%nat) dff s;
  '(dt, s) ← copy m3 s;
  s ← setitem "decade" (fun r => CellZ (decade_of r)) dt s;
  Some ({| obj_df_filtered := dff; obj_df_gems := dg; obj_df_trends := dt |}, s).

(** The script runs again on every change of the widgets. *)
Fixpoint session (df : nat) (params : list (Z * Z * Q)) (s : store)
  : option store :=
  match params with
  | [] => Some s
  | (year_range, score_min) :: params' =>
      '(_, s') ← run df year_range score_min s;
      session df params' s'
  end.

(** ** What a ranking must be *)

Section RankingSpec.

Context {A : Type}.
Variable key : A -> option Q.

(** [x] is ranked no lower than [y]: a larger or equal key, rows without
    a key after all the others. *)
Definition ranks_before (x y : A) : Prop :=
  match key x, key y with
  | Some a, Some b => (b <= a)%Q
  | Some _, None => True
  | None, Some _ => False
  | None, None => True
  end.

Definition same_key (k : option Q) (x : A) : bool :=
  match key x, k with
  | Some a, Some b => Qeq_bool a b
  | None, None => true
  | _, _ => false
  end.

(** [s] is [l] ranked in descending order of [key], rows with equal keys
    in the order they have in [l]. *)
Definition ranked_desc (l s : list A) : Prop :=
  Permutation l s
  /\ StronglySorted ranks_before s
  /\ forall k, List.filter (same_key k) s = List.filter (same_key k) l.

End RankingSpec.

(** ** Reading the genre grid *)

Definition cell_key (c : trend_cell) : option Z * string := (decade c, genre c).

Fixpoint nat_sum (l : list nat) : nat :=
  match l with
  | [] => 0
  | n :: l' => n + nat_sum l'
  end%nat.

(** The counts of genre [g] added over all the decades of the grid. *)
Definition genre_total (grid : list trend_cell) (g : string) : nat :=
  nat_sum (List.map count (List.filter (fun c => String.eqb g (genre c)) grid)).

(** ** Sample data *)

Definition sample_row (t : string) (s : Q) (y m c : Z) (gs : list string) : row :=
  {| title := Some t;
     score := Some s;
     year := Some y;
     type := Some "TV";
     episodes := Some 12;
     members := Some m;
     favorites := Some 0;
     recommendation_count := Some c;
     genres_list := gs;
     studios_list := ["Studio"] |}.

Definition gem_a : row := sample_row "Gem A" 9%Q 2005 150 50 ["Action"].
Definition big_b : row := sample_row "Big B" (17 # 2)%Q 2010 1000000 400000 ["Action"; "Drama"].

(** ** Substrings without regard to case *)

Definition chars (s : string) : list ascii := list_ascii_of_string s.

Definition lower (s : list ascii) : list ascii := List.map to_lower s.

(** [t] contains [q] as a substring when letter case is ignored. *)
Definition contains_ci (q t : string) : Prop :=
  exists pre post, lower (chars t) = pre ++ lower (chars q) ++ post.

(** A query in which no character has a regular-expression meaning. *)
Definition plain_query (q : string) : bool :=
  forallb (fun c => negb (re_special c)) (chars q).

(** Text made of ASCII characters only. *)
Definition ascii_text (s : string) : bool :=
  forallb (fun c => (nat_of_ascii c <? 128)%nat) (chars s).

(** ** The interpolated median, as the specification words it

    [m] is the median of [values]: the middle value of the values put in
    ascending order, or the mean of the two middle values when their
    number is even. *)
Definition interpolated_median (values : list Q) (m : Q) : Prop :=
  exists s,
    Permutation values s
    /\ StronglySorted Qle s
    /\ if Nat.odd (List.length s)
       then nth_error s (List.length s / 2) = Some m
       else exists a b,
              nth_error s (List.length s / 2 - 1) = Some a
              /\ nth_error s (List.length s / 2) = Some b
              /\ m = ((a + b) / 2)%Q.

(** ** The bounds of the year slider (app.py, lines 48-49) *)

(** [Series.min()] and [Series.max()]: missing cells are skipped; NaN
    when nothing is left. *)
Definition column_min (col : list (option Z)) : option Z :=
  match dropna col with
  | [] => None
  | y :: ys => Some (List.fold_right Z.min y ys)
  end.

Definition column_max (col : list (option Z)) : option Z :=
  match dropna col with
  | [] => None
  | y :: ys => Some (List.fold_right Z.max y ys)
  end.

(** [int(x)] of a float cell: an error on NaN. *)
Definition int_of_cell (c : option Z) : M Z :=
  match c with
  | Some y => ret y
  | None => raise ValueError
  end.

(** [int(df['year'].min()) if df['year'].notna().any() else 1917] *)
Definition min_year (df : list row) : M Z :=
  if existsb notna (List.map year df)
  then int_of_cell (column_min (List.map year df))
  else ret 1917.

(** [int(df['year'].max()) if df['year'].notna().any() else 2025] *)
Definition max_year (df : list row) : M Z :=
  if existsb notna (List.map year df)
  then int_of_cell (column_max (List.map year df))
  else ret 2025.

(** The rows of type [t]. *)
Definition has_type (t : string) (r : row) : bool :=
  match type r with
  | Some t' => String.eqb t t'
  | None => false
  end.

(** Strictly ascending decades. *)
Definition decade_lt (a b : option Z) : Prop :=
  match a, b with
  | Some x, Some y => x < y
  | _, _ => False
  end.

(** Two patterns that differ by letter case only. *)
Inductive same_items : list re_item -> list re_item -> Prop :=
| same_nil : same_items [] []
| same_lit a b i1 i2 :
    to_lower a = to_lower b -> same_items i1 i2 ->
    same_items (ReLit a :: i1) (ReLit b :: i2)
| same_any i1 i2 : same_items i1 i2 -> same_items (ReAny :: i1) (ReAny :: i2).

(** [obj[name]] on one row of a frame: the cell of an added column. *)
Fixpoint get_col (name : string) (cols : list (string * cell)) : option cell :=
  match cols with
  | [] => None
  | (n, c) :: cols' => if String.eqb n name then Some c else get_col name cols'
  end.

(** A cell is present and in the given relation with a number. *)
Definition cell_test (p : Q -> bool) (c : option Q) : bool :=
  match c with
  | Some x => p x
  | None => false
  end.
(** * Properties *)

(** ** The literal reader on sample cells *)

Example literal_eval_list :
  literal_eval "['Action', 'Comedy']" = inr (PList [AStr "Action"; AStr "Comedy"]).
Proof. reflexivity. Qed.

Example literal_eval_int : literal_eval "42" = inr (PAtom (AInt 42)).
Proof. reflexivity. Qed.

Example literal_eval_garbage : literal_eval "[Action" = inl SyntaxError.
Proof. reflexivity. Qed.

(** ** The list-field decoder *)

Section DecoderFacts.

Variable le : string -> M pyval.

(** A missing cell, the text of the empty list and the empty text all
    decode to the empty list. *)
Lemma safe_eval_missing : safe_eval le (PAtom ANaN) = PList [].
Proof. reflexivity. Qed.

Lemma safe_eval_none : safe_eval le (PAtom ANone) = PList [].
Proof. reflexivity. Qed.

Lemma safe_eval_empty_literal : safe_eval le (PAtom (AStr "[]")) = PList [].
Proof. reflexivity. Qed.

Lemma safe_eval_empty_text : safe_eval le (PAtom (AStr EmptyString)) = PList [].
Proof. reflexivity. Qed.

(** On any other text the decoder returns what [literal_eval] returns,
    and the empty list when it raises. *)
Lemma safe_eval_text (s : string) :
  String.eqb s "[]" = false ->
  String.eqb s EmptyString = false ->
  safe_eval le (PAtom (AStr s)) = try_except (le s) (PList []).
Proof.
  intros H1 H2. unfold safe_eval, safe_eval_try. simpl.
  rewrite H1, H2. reflexivity.
Qed.

(** What the decoder does with a value that is already a list: a list
    of exactly one element that is not missing is returned as it is;
    every other list comes back empty, because the truth value of the
    array [pd.isna] returns for it is an error (or is true), which the
    bare [except] turns into the empty list. *)
Lemma safe_eval_list (l : list atom) :
  safe_eval le (PList l) =
  match l with
  | [a] => if atom_isna a then PList [] else PList [a]
  | _ => PList []
  end.
Proof.
  destruct l as [|a [|b l]]; try reflexivity.
  unfold safe_eval, safe_eval_try. simpl.
  destruct (atom_isna a); reflexivity.
Qed.

End DecoderFacts.

(** The year of a row is total: a missing or unreadable date gives a
    missing year. *)
Lemma load_year_missing (dt : string -> option Z) (r : raw_row) :
  start_date r = None -> load_year dt r = None.
Proof. unfold load_year. intros ->. reflexivity. Qed.

Lemma load_year_unparsable (dt : string -> option Z) (r : raw_row) (s : string) :
  start_date r = Some s -> dt s = None -> load_year dt r = None.
Proof. unfold load_year. intros -> H. exact H. Qed.

(** C4 (code defect). The decoder never raises, but it does not always
    return a sequence: the cell [42] is a text that [literal_eval] reads
    as the integer 42, and [safe_eval] returns that integer, where the
    branch for values that are not texts returns the empty list for
    anything that is not a list. *)
Theorem C4_safe_eval_returns_non_sequence :
  safe_eval literal_eval (PAtom (AStr "42")) = PAtom (AInt 42)
  /\ is_list (load_genres_list literal_eval
                {| start_date := None;
                   genres := PAtom (AStr "42");
                   studios := PAtom ANaN |}) = false.
Proof. split; reflexivity. Qed.


(** Decoding twice is not decoding once. *)
Lemma safe_eval_not_idempotent :
  let cell := PAtom (AStr "['Action', 'Comedy']") in
  safe_eval literal_eval cell = PList [AStr "Action"; AStr "Comedy"]
  /\ safe_eval literal_eval (safe_eval literal_eval cell) = PList [].
Proof. split; reflexivity. Qed.


(** C10. A value that is neither a text nor a list (a number, a boolean,
    a tuple, a missing value) decodes to the empty list, whatever
    [literal_eval] is. *)
Theorem C10_safe_eval_other_is_empty (le : string -> M pyval) (val : pyval) :
  is_str val = false ->
  is_list val = false ->
  safe_eval le val = PList [].
Proof.
  intros Hs Hl. destruct val as [a | l | l]; try discriminate.
  - destruct a; try discriminate; reflexivity.
  - reflexivity.
Qed.

Lemma C10_safe_eval_other_is_empty_witness :
  is_str (PAtom (AInt 5)) = false
  /\ is_list (PAtom (AInt 5)) = false
  /\ safe_eval literal_eval (PAtom (AInt 5)) = PList [].
Proof.
  split; [reflexivity | split; [reflexivity |]].
  apply (C10_safe_eval_other_is_empty literal_eval (PAtom (AInt 5))); reflexivity.
Defined.

(** ** The filter *)

Lemma filter_mask_spec (yr : Z * Z) (sm : Q) (r : row) :
  filter_mask yr sm r = true <->
  exists y s, year r = Some y /\ score r = Some s
              /\ fst yr <= y /\ y <= snd yr /\ (sm <= s)%Q.
Proof.
  unfold filter_mask, geZ, leZ, geQ. split.
  - intros H. apply andb_prop in H as [H Hs]. apply andb_prop in H as [Hlo Hhi].
    destruct (year r) as [y|]; [|discriminate].
    destruct (score r) as [s|]; [|discriminate].
    exists y, s. repeat split; try lia.
    apply Qle_bool_iff. exact Hs.
  - intros (y & s & -> & -> & Hlo & Hhi & Hs).
    apply andb_true_intro. split.
    + apply andb_true_intro. split; lia.
    + apply Qle_bool_iff. exact Hs.
Qed.

(** C2. A row is in the filtered subset iff it is a row of the dataset
    whose year lies in the range and whose score reaches the minimum; a
    row whose year or score is missing is never in it. The filter is a
    total function, so no comparison raises. *)
Theorem C2_filter_inclusion (df : list row) (yr : Z * Z) (sm : Q) (r : row) :
  (List.In r (df_filtered df yr sm) <->
   List.In r df /\
   exists y s, year r = Some y /\ score r = Some s
               /\ fst yr <= y /\ y <= snd yr /\ (sm <= s)%Q)
  /\ (year r = None \/ score r = None -> ~ List.In r (df_filtered df yr sm)).
Proof.
  assert (Hiff : List.In r (df_filtered df yr sm) <->
                 List.In r df /\
                 exists y s, year r = Some y /\ score r = Some s
                             /\ fst yr <= y /\ y <= snd yr /\ (sm <= s)%Q).
  { unfold df_filtered. rewrite List.filter_In, filter_mask_spec. reflexivity. }
  split; [exact Hiff|].
  intros Hnull Hin. apply Hiff in Hin as (_ & y & s & Hy & Hs & _).
  destruct Hnull as [Hn | Hn]; congruence.
Qed.

Lemma filter_twice {A} (p : A -> bool) (l : list A) :
  List.filter p (List.filter p l) = List.filter p l.
Proof.
  induction l as [|x l IH]; simpl; [reflexivity|].
  destruct (p x) eqn:E; simpl; [rewrite E, IH; reflexivity | exact IH].
Qed.

Lemma df_filtered_idempotent (df : list row) (yr : Z * Z) (sm : Q) :
  df_filtered (df_filtered df yr sm) yr sm = df_filtered df yr sm.
Proof. apply filter_twice. Qed.

(** Every row of a filtered subset has a year. *)
Lemma df_filtered_year (df : list row) (yr : Z * Z) (sm : Q) (r : row) :
  List.In r (df_filtered df yr sm) -> exists y, year r = Some y.
Proof.
  unfold df_filtered. rewrite List.filter_In, filter_mask_spec.
  intros (_ & y & _ & Hy & _). exists y. exact Hy.
Qed.

(** ** Frames in the store *)

(** A new object does not disturb the objects there are. *)
Lemma new_frame_spec (f : frame) (s : store) :
  s !! (new_frame f s).1 = None
  /\ (new_frame f s).2 !! (new_frame f s).1 = Some f
  /\ forall k g, s !! k = Some g -> (new_frame f s).2 !! k = Some g.
Proof.
  unfold new_frame. simpl.
  assert (Hfresh : s !! fresh (dom s) = None).
  { apply not_elem_of_dom. apply is_fresh. }
  split; [exact Hfresh|]. split.
  - apply lookup_insert_eq.
  - intros k g Hk. rewrite lookup_insert_ne; [exact Hk|].
    intros E. subst k. congruence.
Qed.

Lemma getitem_mask_spec (mask : row -> bool) (l : nat) (s : store) (f : frame) :
  s !! l = Some f ->
  exists l' s',
    getitem_mask mask l s = Some (l', s')
    /\ s !! l' = None
    /\ s' !! l' = Some (List.filter (fun xr => mask (fst xr)) f)
    /\ forall k g, s !! k = Some g -> s' !! k = Some g.
Proof.
  intros Hl. unfold getitem_mask. rewrite Hl. simpl.
  set (f' := List.filter _ f).
  destruct (new_frame_spec f' s) as (H1 & H2 & H3).
  exists (new_frame f' s).1, (new_frame f' s).2.
  split; [destruct (new_frame f' s); reflexivity | auto].
Qed.

Lemma copy_spec (l : nat) (s : store) (f : frame) :
  s !! l = Some f ->
  exists l' s',
    copy l s = Some (l', s')
    /\ s !! l' = None
    /\ s' !! l' = Some f
    /\ forall k g, s !! k = Some g -> s' !! k = Some g.
Proof.
  intros Hl. unfold copy. rewrite Hl. simpl.
  destruct (new_frame_spec f s) as (H1 & H2 & H3).
  exists (new_frame f s).1, (new_frame f s).2.
  split; [destruct (new_frame f s); reflexivity | auto].
Qed.

(** Adding a column changes the object it is added to, and no other. *)
Lemma setitem_spec (name : string) (col : row -> cell) (l : nat) (s : store)
  (f : frame) :
  s !! l = Some f ->
  exists s',
    setitem name col l s = Some s'
    /\ (exists f', s' !! l = Some f' /\ frame_rows f' = frame_rows f)
    /\ forall k g, k <> l -> s !! k = Some g -> s' !! k = Some g.
Proof.
  intros Hl. unfold setitem. rewrite Hl. simpl.
  eexists. split; [reflexivity|]. split.
  - eexists. split; [apply lookup_insert_eq|].
    unfold frame_rows. rewrite List.map_map. reflexivity.
  - intros k g Hk Hg. rewrite lookup_insert_ne; [exact Hg | congruence].
Qed.

Lemma frame_rows_filter (mask : row -> bool) (f : frame) :
  frame_rows (List.filter (fun xr => mask (fst xr)) f)
  = List.filter mask (frame_rows f).
Proof.
  unfold frame_rows. induction f as [|xr f IH]; simpl; [reflexivity|].
  destruct (mask (fst xr)); simpl; rewrite IH; reflexivity.
Qed.

(** One run of the script: it ends, the loaded frame is what it was, and
    the object [df_filtered] holds exactly the rows the filter keeps. *)
Lemma run_spec (df : nat) (yr : Z * Z) (sm : Q) (s : store) (f : frame) :
  s !! df = Some f ->
  exists objs s',
    run df yr sm s = Some (objs, s')
    /\ s' !! df = Some f
    /\ obj_df_filtered objs <> df
    /\ exists ff, s' !! obj_df_filtered objs = Some ff
                  /\ frame_rows ff = df_filtered (frame_rows f) yr sm.
Proof.
  intros Hdf. unfold run.
  destruct (getitem_mask_spec (filter_mask yr sm) df s f Hdf)
    as (m1 & s1 & -> & Hm1 & Hm1' & K1). simpl.
  destruct (copy_spec m1 s1 _ Hm1') as (dff & s2 & -> & Hdff & Hdff' & K2). simpl.
  destruct (getitem_mask_spec gems_mask dff s2 _ Hdff')
    as (m2 & s3 & -> & Hm2 & Hm2' & K3). simpl.
  destruct (copy_spec m2 s3 _ Hm2') as (dg & s4 & -> & Hdg & Hdg' & K4). simpl.
  unfold frame_len. rewrite Hdg'. simpl.
  pose proof (K1 _ _ Hdf) as D1. pose proof (K2 _ _ D1) as D2.
  pose proof (K3 _ _ D2) as D3. pose proof (K4 _ _ D3) as D4.
  pose proof (K3 _ _ Hdff') as F3. pose proof (K4 _ _ F3) as F4.
  assert (Ndg : df <> dg /\ dff <> dg) by (split; congruence).
  (* the object [df_gems] may receive its column *)
  match goal with
  | |- context [if ?c then ?a else ?b] =>
      assert (exists s5, (if c then a else b) = Some s5
                         /\ s5 !! df = Some f
                         /\ s5 !! dff
                            = Some (List.filter (fun xr => filter_mask yr sm xr.1) f))
        as (s5 & -> & D5 & F5)
  end.
  { destruct (0 <? _)%nat.
    - destruct (setitem_spec "rec_ratio"
                  (fun r => CellQ (rec_ratio (add_rec_ratio r))) dg s4 _ Hdg')
        as (s5 & E & _ & K5).
      exists s5. split; [exact E|]. split; apply K5; tauto.
    - exists s4. auto. }
  simpl.
  destruct (getitem_mask_spec (fun r => (0 <? List.length (genres_list r))%nat)
              dff s5 _ F5) as (m3 & s6 & -> & Hm3 & Hm3' & K6). simpl.
  destruct (copy_spec m3 s6 _ Hm3') as (dt & s7 & -> & Hdt & Hdt' & K7). simpl.
  pose proof (K6 _ _ D5) as D6. pose proof (K7 _ _ D6) as D7.
  pose proof (K6 _ _ F5) as F6. pose proof (K7 _ _ F6) as F7.
  destruct (setitem_spec "decade" (fun r => CellZ (decade_of r)) dt s7 _ Hdt')
    as (s8 & -> & _ & K8). simpl.
  eexists _, s8. split; [reflexivity|]. simpl.
  split; [apply K8; congruence|].
  split; [congruence|].
  eexists. split; [apply K8; [congruence | exact F7]|].
  apply frame_rows_filter.
Qed.

Lemma session_spec (df : nat) (params : list (Z * Z * Q)) :
  forall (s : store) (f : frame),
    s !! df = Some f ->
    exists s', session df params s = Some s' /\ s' !! df = Some f.
Proof.
  induction params as [|[yr sm] params IH]; intros s f Hdf; simpl.
  - exists s. auto.
  - destruct (run_spec df yr sm s f Hdf) as (objs & s1 & -> & Hdf1 & _). simpl.
    apply IH. exact Hdf1.
Qed.

(** C7. Filtering the filtered subset again with the same bounds gives the
    same subset; and the filter leaves the loaded dataset as it was: after
    a run of the script, and after any number of runs with varying bounds,
    the object [df] holds the same frame (same rows, same row count),
    while [df_filtered] is another object holding the rows kept. *)
Theorem C7_filter_idempotent_non_mutating
  (df : nat) (s : store) (f : frame) (yr : Z * Z) (sm : Q)
  (params : list (Z * Z * Q)) :
  s !! df = Some f ->
  df_filtered (df_filtered (frame_rows f) yr sm) yr sm
  = df_filtered (frame_rows f) yr sm
  /\ (exists objs s' ff,
         run df yr sm s = Some (objs, s')
         /\ s' !! df = Some f
         /\ obj_df_filtered objs <> df
         /\ s' !! obj_df_filtered objs = Some ff
         /\ frame_rows ff = df_filtered (frame_rows f) yr sm)
  /\ (exists s', session df params s = Some s' /\ s' !! df = Some f).
Proof.
  intros Hdf. split; [apply df_filtered_idempotent|]. split.
  - destruct (run_spec df yr sm s f Hdf) as (objs & s' & Hr & Hd & Hn & ff & Hf & Hrows).
    exists objs, s', ff. auto.
  - apply session_spec. exact Hdf.
Qed.

(** ** The stable sort *)

Section SortFacts.

Context {A : Type}.
Variable leb : A -> A -> bool.

Lemma insert_by_perm (x : A) (l : list A) :
  Permutation (x :: l) (insert_by leb x l).
Proof.
  induction l as [|y l IH]; simpl; [reflexivity|].
  destruct (leb x y); [reflexivity|].
  rewrite perm_swap. apply perm_skip. exact IH.
Qed.

Lemma sort_by_perm (l : list A) : Permutation l (sort_by leb l).
Proof.
  induction l as [|x l IH]; simpl; [reflexivity|].
  rewrite <- insert_by_perm. apply perm_skip. exact IH.
Qed.

Lemma sort_by_length (l : list A) :
  List.length (sort_by leb l) = List.length l.
Proof. symmetry. apply Permutation_length, sort_by_perm. Qed.

Lemma sort_by_In (l : list A) (x : A) :
  List.In x (sort_by leb l) <-> List.In x l.
Proof.
  split; apply Permutation_in; [symmetry|]; apply sort_by_perm.
Qed.

(** Stability: a class of elements that may all precede each other
    comes out of the sort in the order it went in. *)
Section Stable.

Variable p : A -> bool.
Hypothesis p_ties : forall x y, p x = true -> p y = true -> leb x y = true.

Lemma insert_by_filter (x : A) (l : list A) :
  List.filter p (insert_by leb x l) = List.filter p (x :: l).
Proof.
  induction l as [|y l IH]; [reflexivity|].
  cbn [insert_by]. destruct (leb x y) eqn:E; [reflexivity|].
  cbn [List.filter] in *. rewrite IH.
  destruct (p x) eqn:Px, (p y) eqn:Py; try reflexivity.
  rewrite (p_ties x y Px Py) in E. discriminate.
Qed.

Lemma sort_by_stable (l : list A) :
  List.filter p (sort_by leb l) = List.filter p l.
Proof.
  induction l as [|x l IH]; [reflexivity|].
  cbn [sort_by]. rewrite insert_by_filter.
  cbn [List.filter]. rewrite IH. reflexivity.
Qed.

End Stable.

Hypothesis leb_total : forall x y, leb x y = true \/ leb y x = true.
Hypothesis leb_trans :
  forall x y z, leb x y = true -> leb y z = true -> leb x z = true.

Lemma insert_by_sorted (x : A) (l : list A) :
  StronglySorted (fun a b => leb a b = true) l ->
  StronglySorted (fun a b => leb a b = true) (insert_by leb x l).
Proof.
  induction 1 as [|y l Hs IH Hy]; simpl.
  - constructor; constructor.
  - destruct (leb x y) eqn:E.
    + constructor; [constructor; assumption|].
      constructor; [exact E|].
      rewrite List.Forall_forall in *. intros z Hz. eauto.
    + constructor; [exact IH|].
      rewrite List.Forall_forall in *. intros z Hz.
      apply (Permutation_in _ (Permutation_sym (insert_by_perm x l))) in Hz.
      destruct Hz as [<- | Hz]; [|auto].
      destruct (leb_total x y) as [H | H]; congruence.
Qed.

Lemma sort_by_sorted (l : list A) :
  StronglySorted (fun a b => leb a b = true) (sort_by leb l).
Proof.
  induction l as [|x l IH]; simpl; [constructor|].
  apply insert_by_sorted. exact IH.
Qed.

End SortFacts.

Section SortedFacts.

Context {A : Type}.
Variable R : A -> A -> Prop.

Lemma StronglySorted_app (l1 l2 : list A) :
  StronglySorted R l1 ->
  StronglySorted R l2 ->
  (forall x y, List.In x l1 -> List.In y l2 -> R x y) ->
  StronglySorted R (l1 ++ l2).
Proof.
  induction 1 as [|x l1 Hs IH Hx]; intros H2 Hc; simpl; [exact H2|].
  constructor.
  - apply IH; [exact H2|]. intros a b Ha Hb. apply Hc; [right|]; assumption.
  - rewrite List.Forall_forall in *. intros z Hz.
    apply List.in_app_or in Hz as [Hz | Hz]; [auto|].
    apply Hc; [left; reflexivity | exact Hz].
Qed.

Lemma StronglySorted_app_inv (l1 l2 : list A) :
  StronglySorted R (l1 ++ l2) ->
  StronglySorted R l1 /\ StronglySorted R l2
  /\ forall x y, List.In x l1 -> List.In y l2 -> R x y.
Proof.
  induction l1 as [|x l1 IH]; simpl; intros H.
  - split; [constructor|]. split; [exact H|]. intros x y [].
  - apply StronglySorted_inv in H as [Hs Hx].
    destruct (IH Hs) as (H1 & H2 & Hc).
    rewrite List.Forall_forall in Hx.
    split; [|split; [exact H2|]].
    + constructor; [exact H1|]. rewrite List.Forall_forall.
      intros z Hz. apply Hx. apply List.in_or_app. left. exact Hz.
    + intros a b [<- | Ha] Hb; [|auto].
      apply Hx. apply List.in_or_app. right. exact Hb.
Qed.

(** The first [n] elements of a sorted list are sorted and precede all
    the others. *)
Lemma firstn_sorted (n : nat) (l : list A) :
  StronglySorted R l ->
  StronglySorted R (firstn n l)
  /\ forall x y, List.In x (firstn n l) -> List.In y (skipn n l) -> R x y.
Proof.
  intros H. rewrite <- (List.firstn_skipn n l) in H.
  apply StronglySorted_app_inv in H. tauto.
Qed.

End SortedFacts.

(** ** Ranking *)

Lemma filter_filter_imp {A} (p q : A -> bool) (l : list A) :
  (forall x, p x = true -> q x = true) ->
  List.filter p (List.filter q l) = List.filter p l.
Proof.
  intros H. induction l as [|x l IH]; simpl; [reflexivity|].
  destruct (q x) eqn:Q; simpl.
  - rewrite IH. reflexivity.
  - destruct (p x) eqn:P; [|exact IH]. rewrite (H x P) in Q. discriminate.
Qed.

Lemma filter_nothing {A} (p : A -> bool) (l : list A) :
  (forall x, List.In x l -> p x = false) -> List.filter p l = [].
Proof.
  induction l as [|x l IH]; simpl; intros H; [reflexivity|].
  rewrite (H x (or_introl eq_refl)). apply IH. intros y Hy. apply H. right. exact Hy.
Qed.

Lemma filter_split_perm {A} (q : A -> bool) (l : list A) :
  Permutation l (List.filter q l ++ List.filter (fun x => negb (q x)) l).
Proof.
  induction l as [|x l IH]; simpl; [reflexivity|].
  destruct (q x); simpl.
  - apply perm_skip. exact IH.
  - apply Permutation_cons_app. exact IH.
Qed.

Section RankingFacts.

Context {A : Type}.
Variable key : A -> option Q.

Lemma desc_leb_spec (x y : A) :
  desc_leb key x y = true <-> ranks_before key x y.
Proof.
  unfold desc_leb, ranks_before.
  destruct (key x), (key y); try apply Qle_bool_iff; intuition discriminate.
Qed.

Lemma desc_leb_total (x y : A) :
  desc_leb key x y = true \/ desc_leb key y x = true.
Proof.
  unfold desc_leb. destruct (key x) as [a|], (key y) as [b|]; auto.
  destruct (Qlt_le_dec a b) as [H | H].
  - right. apply Qle_bool_iff, Qlt_le_weak, H.
  - left. apply Qle_bool_iff, H.
Qed.

Lemma desc_leb_trans (x y z : A) :
  desc_leb key x y = true -> desc_leb key y z = true -> desc_leb key x z = true.
Proof.
  unfold desc_leb.
  destruct (key x) as [a|], (key y) as [b|], (key z) as [c|];
    try discriminate; auto.
  rewrite !Qle_bool_iff. intros H1 H2. apply (Qle_trans _ b); assumption.
Qed.

Lemma same_key_ties (k : option Q) (x y : A) :
  same_key key k x = true -> same_key key k y = true -> desc_leb key x y = true.
Proof.
  unfold same_key, desc_leb.
  destruct (key x) as [a|], (key y) as [b|], k as [c|];
    try discriminate; auto.
  rewrite !Qeq_bool_iff, Qle_bool_iff. intros H1 H2.
  rewrite H1, H2. apply Qle_refl.
Qed.

Lemma ranks_before_sorted (s : list A) :
  StronglySorted (fun a b => desc_leb key a b = true) s ->
  StronglySorted (ranks_before key) s.
Proof.
  induction 1 as [|x s Hs IH Hx]; constructor; [exact IH|].
  rewrite List.Forall_forall in *. intros y Hy.
  apply desc_leb_spec. auto.
Qed.

(** [sort_values] ranks: its result is the rows it was given, in
    descending order of the key, rows without a key last, rows with
    equal keys in their original order. *)
Lemma sort_values_desc_ranked (l : list A) :
  ranked_desc key l (sort_values_desc key l).
Proof.
  unfold ranked_desc, sort_values_desc.
  set (with_key := List.filter (fun x => notna (key x)) l).
  set (without := List.filter (fun x => negb (notna (key x))) l).
  split; [|split].
  - rewrite <- (sort_by_perm (desc_leb key) with_key).
    apply filter_split_perm.
  - apply ranks_before_sorted. apply StronglySorted_app.
    + apply sort_by_sorted; [apply desc_leb_total | apply desc_leb_trans].
    + subst without. induction l as [|x l IH]; simpl; [constructor|].
      destruct (key x) eqn:E; simpl; [exact IH|].
      constructor; [exact IH|]. rewrite List.Forall_forall.
      intros y Hy. apply List.filter_In in Hy as [_ Hy].
      unfold desc_leb. rewrite E. destruct (key y); [discriminate | reflexivity].
    + intros x y Hx Hy. apply sort_by_In in Hx.
      apply List.filter_In in Hx as [_ Hx]. apply List.filter_In in Hy as [_ Hy].
      unfold desc_leb. destruct (key x); [|discriminate].
      destruct (key y); [discriminate | reflexivity].
  - intros k. rewrite List.filter_app.
    rewrite (sort_by_stable (desc_leb key) (same_key key k) (same_key_ties k)).
    destruct k as [b|].
    + subst with_key. rewrite filter_filter_imp.
      * rewrite (filter_nothing _ without); [apply List.app_nil_r|].
        intros x Hx. apply List.filter_In in Hx as [_ Hx].
        unfold same_key. destruct (key x); [discriminate | reflexivity].
      * intros x. unfold same_key. destruct (key x); [reflexivity | discriminate].
    + rewrite (filter_nothing _ with_key).
      * subst without. simpl. apply filter_filter_imp.
        intros x. unfold same_key. destruct (key x); [discriminate | reflexivity].
      * intros x Hx. apply List.filter_In in Hx as [_ Hx].
        unfold same_key. destruct (key x); [reflexivity | discriminate].
Qed.

(** The [n] largest: the head of the ranking; what is left out ranks no
    higher than anything kept. *)
Lemma nlargest_spec (n : nat) (l : list A) :
  exists ranked,
    ranked_desc key l ranked
    /\ nlargest key n l = firstn n ranked
    /\ StronglySorted (ranks_before key) (nlargest key n l)
    /\ (forall x y, List.In x (nlargest key n l) -> List.In y (skipn n ranked) ->
                    ranks_before key x y)
    /\ (List.length (nlargest key n l) <= n)%nat.
Proof.
  exists (sort_values_desc key l).
  pose proof (sort_values_desc_ranked l) as Hr.
  split; [exact Hr|]. split; [reflexivity|].
  destruct Hr as (_ & Hs & _).
  destruct (firstn_sorted (ranks_before key) n _ Hs) as [H1 H2].
  split; [exact H1|]. split; [exact H2|].
  apply List.firstn_le_length.
Qed.

End RankingFacts.

(** ** Medians *)

Lemma dropna_all_some {A B} (f : A -> option B) (l : list A) :
  (forall x, List.In x l -> exists b, f x = Some b) ->
  List.length (dropna (List.map f l)) = List.length l.
Proof.
  induction l as [|x l IH]; simpl; intros H; [reflexivity|].
  destruct (H x (or_introl eq_refl)) as [b ->]. simpl.
  rewrite IH; [reflexivity|]. intros y Hy. apply H. right. exact Hy.
Qed.

(** The median of a column with at least one present cell is a number. *)
Lemma median_some (col : list (option Q)) :
  (0 < List.length (dropna col))%nat -> exists m, median col = Some m.
Proof.
  intros Hlen. unfold median.
  set (v := sort_by Qle_bool (dropna col)).
  assert (Hv : List.length v = List.length (dropna col)) by apply sort_by_length.
  destruct (Nat.eqb_spec (List.length v) 0) as [E | E]; [lia|].
  assert (H2 : (List.length v / 2 < List.length v)%nat)
    by (apply Nat.div_lt; lia).
  destruct (Nat.odd (List.length v)).
  - destruct (nth_error v (List.length v / 2)) eqn:N; [eauto|].
    apply List.nth_error_None in N. lia.
  - destruct (nth_error v (List.length v / 2 - 1)) eqn:N1;
      [|apply List.nth_error_None in N1; lia].
    destruct (nth_error v (List.length v / 2)) eqn:N2;
      [eauto | apply List.nth_error_None in N2; lia].
Qed.

(** The median is a middle value: at least half of the present cells are
    not above it and at least half are not below it. *)

Lemma filter_length_perm {A} (p : A -> bool) (l l' : list A) :
  Permutation l l' -> List.length (List.filter p l) = List.length (List.filter p l').
Proof.
  induction 1 as [|x l l' _ IH|x y l|l l' l'' _ IH1 _ IH2]; simpl.
  - reflexivity.
  - destruct (p x); simpl; rewrite IH; reflexivity.
  - destruct (p x), (p y); reflexivity.
  - rewrite IH1. exact IH2.
Qed.

Lemma filter_length_all {A} (p : A -> bool) (l : list A) :
  (forall x, List.In x l -> p x = true) ->
  List.length (List.filter p l) = List.length l.
Proof.
  induction l as [|x l IH]; simpl; intros H; [reflexivity|].
  rewrite (H x (or_introl eq_refl)). simpl. rewrite IH; [reflexivity|].
  intros y Hy. apply H. right. exact Hy.
Qed.

Lemma sorted_around (s : list Q) (j : nat) (a : Q) :
  StronglySorted (fun x y => Qle_bool x y = true) s ->
  nth_error s j = Some a ->
  (forall x, List.In x (firstn (S j) s) -> (x <= a)%Q)
  /\ (forall x, List.In x (skipn j s) -> (a <= x)%Q).
Proof.
  intros Hs Hj. apply List.nth_error_split in Hj as (l1 & l2 & -> & <-).
  apply StronglySorted_app_inv in Hs as (_ & H2 & Hc).
  apply StronglySorted_inv in H2 as [_ Ha]. rewrite List.Forall_forall in Ha.
  split.
  - intros x Hx.
    replace (S (List.length l1)) with (List.length (l1 ++ [a])) in Hx
      by (rewrite List.length_app; simpl; lia).
    change (a :: l2) with ([a] ++ l2) in Hx. rewrite List.app_assoc in Hx.
    rewrite List.firstn_app, List.firstn_all, Nat.sub_diag in Hx.
    simpl in Hx. rewrite List.app_nil_r in Hx.
    apply List.in_app_or in Hx as [Hx | [<- | []]]; [|apply Qle_refl].
    apply Qle_bool_iff, Hc; [exact Hx | left; reflexivity].
  - intros x Hx.
    rewrite List.skipn_app, List.skipn_all, Nat.sub_diag in Hx. simpl in Hx.
    destruct Hx as [<- | Hx]; [apply Qle_refl|].
    apply Qle_bool_iff, Ha, Hx.
Qed.

Lemma Qle_bool_total (x y : Q) : Qle_bool x y = true \/ Qle_bool y x = true.
Proof.
  destruct (Qlt_le_dec x y) as [H | H].
  - left. apply Qle_bool_iff, Qlt_le_weak, H.
  - right. apply Qle_bool_iff, H.
Qed.

Lemma Qle_bool_trans (x y z : Q) :
  Qle_bool x y = true -> Qle_bool y z = true -> Qle_bool x z = true.
Proof. rewrite !Qle_bool_iff. apply Qle_trans. Qed.

Lemma median_middle (col : list (option Q)) (m : Q) :
  median col = Some m ->
  (List.length (dropna col)
   <= 2 * List.length (List.filter (fun x => Qle_bool x m) (dropna col)))%nat
  /\ (List.length (dropna col)
      <= 2 * List.length (List.filter (fun x => Qle_bool m x) (dropna col)))%nat.
Proof.
  unfold median. set (v := dropna col). set (s := sort_by Qle_bool v).
  assert (Hperm : Permutation v s) by apply sort_by_perm.
  assert (Hs : StronglySorted (fun x y => Qle_bool x y = true) s)
    by (apply sort_by_sorted; [apply Qle_bool_total | apply Qle_bool_trans]).
  rewrite !(filter_length_perm _ v s Hperm), (Permutation_length Hperm).
  set (n := List.length s).
  assert (Hcount : forall (p : Q -> bool) (k : nat),
             (forall x, List.In x (firstn k s) -> p x = true) ->
             (Nat.min k n <= List.length (List.filter p s))%nat).
  { intros p k Hp. rewrite <- (List.firstn_skipn k s) at 1.
    rewrite List.filter_app, List.length_app, (filter_length_all p _ Hp).
    rewrite List.length_firstn. fold n. lia. }
  assert (Hcount' : forall (p : Q -> bool) (k : nat),
             (forall x, List.In x (skipn k s) -> p x = true) ->
             (n - k <= List.length (List.filter p s))%nat).
  { intros p k Hp. rewrite <- (List.firstn_skipn k s) at 1.
    rewrite List.filter_app, List.length_app, (filter_length_all p (skipn k s) Hp).
    rewrite List.length_skipn. fold n. lia. }
  destruct (Nat.eqb_spec n 0) as [E | E]; [discriminate|].
  destruct (Nat.odd n) eqn:Hodd.
  - intros Hm. destruct (sorted_around s (n / 2) m Hs Hm) as [Hlo Hhi].
    apply Nat.odd_spec in Hodd as [k Hk].
    assert (Hdiv : (n / 2 = k)%nat) by (rewrite Hk; symmetry; apply Nat.div_unique with 1%nat; lia).
    rewrite Hdiv in *.
    split.
    + pose proof (Hcount (fun x => Qle_bool x m) (S k)
                    (fun x Hx => proj2 (Qle_bool_iff x m) (Hlo x Hx))). lia.
    + pose proof (Hcount' (fun x => Qle_bool m x) k
                    (fun x Hx => proj2 (Qle_bool_iff m x) (Hhi x Hx))). lia.
  - destruct (nth_error s (n / 2 - 1)) as [a|] eqn:Na; [|discriminate].
    destruct (nth_error s (n / 2)) as [b|] eqn:Nb; [|discriminate].
    intros Hm. injection Hm as <-.
    assert (Heven : Nat.even n = true).
    { rewrite <- Nat.negb_odd, Hodd. reflexivity. }
    apply Nat.even_spec in Heven as [k Hk].
    assert (Hdiv : (n / 2 = k)%nat) by (rewrite Hk; symmetry; apply Nat.div_unique with 0%nat; lia).
    rewrite Hdiv in *.
    destruct (sorted_around s (k - 1) a Hs Na) as [Hlo _].
    destruct (sorted_around s k b Hs Nb) as [Hb Hhi].
    assert (Hab : (a <= b)%Q).
    { apply Hb. apply List.nth_error_In with (n := (k - 1)%nat).
      rewrite List.nth_error_firstn. destruct (Nat.ltb_spec (k - 1) (S k)); [exact Na | lia]. }
    assert (Ham : (a <= (a + b) / 2)%Q)
      by (apply Qle_shift_div_l; [reflexivity | lra]).
    assert (Hmb : ((a + b) / 2 <= b)%Q)
      by (apply Qle_shift_div_r; [reflexivity | lra]).
    replace (S (k - 1)) with k in Hlo by lia.
    split.
    + pose proof (Hcount (fun x => Qle_bool x ((a + b) / 2)) k
                    (fun x Hx => proj2 (Qle_bool_iff _ _) (Qle_trans _ _ _ (Hlo x Hx) Ham))).
      lia.
    + pose proof (Hcount' (fun x => Qle_bool ((a + b) / 2) x) k
                    (fun x Hx => proj2 (Qle_bool_iff _ _) (Qle_trans _ _ _ Hmb (Hhi x Hx)))).
      lia.
Qed.

(** ** Hidden gems *)

Lemma gems_mask_spec (r : row) :
  gems_mask r = true <->
  exists c m, recommendation_count r = Some c /\ members r = Some m /\ 100 < m.
Proof.
  unfold gems_mask, notna, gtZ. split.
  - intros H. apply andb_prop in H as [Hc Hm].
    destruct (recommendation_count r) as [c|]; [|discriminate].
    destruct (members r) as [m|]; [|discriminate].
    exists c, m. repeat split. lia.
  - intros (c & m & -> & -> & H). simpl. lia.
Qed.

(** Every row of [df_gems] with its ratio: it is a row of the filtered
    dataset with a recommendation count and more than 100 members, and its
    ratio is the quotient of the two. *)
Lemma df_gems_rows (dff : list row) (g : gem) :
  List.In g (List.map add_rec_ratio (df_gems dff)) ->
  List.In (gem_row g) dff
  /\ exists c m, recommendation_count (gem_row g) = Some c
                 /\ members (gem_row g) = Some m
                 /\ 100 < m
                 /\ rec_ratio g = Some (inject_Z c / inject_Z m)%Q.
Proof.
  intros H. apply List.in_map_iff in H as (r & <- & Hr).
  unfold df_gems in Hr. apply List.filter_In in Hr as [Hin Hm].
  split; [exact Hin|].
  apply gems_mask_spec in Hm as (c & m & Hc & Hmm & Hgt).
  exists c, m. simpl. repeat split; try assumption.
  unfold div_cell. rewrite Hc, Hmm.
  destruct (Z.eqb_spec m 0); [lia | reflexivity].
Qed.

Lemma Qlt_bool_iff (x y : Q) : Qlt_bool x y = true <-> (x < y)%Q.
Proof.
  unfold Qlt_bool. rewrite negb_true_iff. split.
  - intros H. apply Qnot_le_lt. intros Hle.
    apply Qle_bool_iff in Hle. congruence.
  - intros H. destruct (Qle_bool y x) eqn:E; [|reflexivity].
    apply Qle_bool_iff in E. exfalso. exact (Qlt_not_le _ _ H E).
Qed.

Lemma hidden_mask_spec (gs : list gem) (g : gem) (mm mr : Q) :
  median_members gs = Some mm ->
  median_ratio gs = Some mr ->
  hidden_mask gs g = true <->
  exists m r, members (gem_row g) = Some m /\ rec_ratio g = Some r
              /\ (inject_Z m < mm)%Q /\ (mr < r)%Q.
Proof.
  intros Hm Hr. unfold hidden_mask, gt_cell, lt_cell, members_cell.
  rewrite Hm, Hr. split.
  - intros H. apply andb_prop in H as [H1 H2].
    destruct (members (gem_row g)) as [m|]; [|discriminate].
    destruct (rec_ratio g) as [r|]; [|discriminate].
    exists m, r. simpl in H1. rewrite Qlt_bool_iff in H1, H2. auto.
  - intros (m & r & -> & -> & H1 & H2). simpl.
    apply andb_true_intro. rewrite !Qlt_bool_iff. auto.
Qed.

(** On a population that is not empty both medians are numbers. *)
Lemma medians_defined (dff : list row) :
  df_gems dff <> [] ->
  exists mm mr,
    median_members (List.map add_rec_ratio (df_gems dff)) = Some mm
    /\ median_ratio (List.map add_rec_ratio (df_gems dff)) = Some mr.
Proof.
  intros Hne. set (gs := List.map add_rec_ratio (df_gems dff)).
  assert (Hlen : (0 < List.length gs)%nat).
  { subst gs. rewrite List.length_map. destruct (df_gems dff); [congruence | simpl; lia]. }
  destruct (median_some (List.map members_cell gs)) as [mm Hmm].
  { rewrite dropna_all_some; [exact Hlen|].
    intros g Hg. destruct (df_gems_rows dff g Hg) as (_ & c & m & _ & Hm & _).
    unfold members_cell. rewrite Hm. simpl. eauto. }
  destruct (median_some (List.map rec_ratio gs)) as [mr Hmr].
  { rewrite dropna_all_some; [exact Hlen|].
    intros g Hg. destruct (df_gems_rows dff g Hg) as (_ & c & m & _ & _ & _ & Hr). eauto. }
  exists mm, mr. split; assumption.
Qed.

(** The median of the model is the interpolated median. *)
Lemma median_interpolated (col : list (option Q)) (m : Q) :
  median col = Some m -> interpolated_median (dropna col) m.
Proof.
  unfold median. set (v := dropna col). set (s := sort_by Qle_bool v).
  intros H. exists s. split; [apply sort_by_perm|]. split.
  - assert (Hconv : forall l, StronglySorted (fun x y => Qle_bool x y = true) l ->
                                StronglySorted Qle l).
    { induction 1 as [|x l Hl IH Hx]; constructor; [exact IH|].
      rewrite List.Forall_forall in *. intros y Hy. apply Qle_bool_iff. auto. }
    apply Hconv, sort_by_sorted; [apply Qle_bool_total | apply Qle_bool_trans].
  - destruct (Nat.eqb_spec (List.length s) 0) as [E | E]; [discriminate|].
    destruct (Nat.odd (List.length s)); [exact H|].
    destruct (nth_error s (List.length s / 2 - 1)) as [a|]; [|discriminate].
    destruct (nth_error s (List.length s / 2)) as [b|]; [|discriminate].
    injection H as <-. eauto.
Qed.

Lemma dropna_Forall2 {A B} (f : A -> option B) (l : list A) :
  (forall x, List.In x l -> exists y, f x = Some y) ->
  Forall2 (fun x y => f x = Some y) l (dropna (List.map f l)).
Proof.
  induction l as [|x l IH]; simpl; intros H; [constructor|].
  destruct (H x (or_introl eq_refl)) as [y Hy]. rewrite Hy.
  constructor; [exact Hy|]. apply IH. intros z Hz. apply H. right. exact Hz.
Qed.

Lemma insert_by_map {A B} (f : A -> B) (leb : B -> B -> bool) (x : A) (l : list A) :
  insert_by leb (f x) (List.map f l)
  = List.map f (insert_by (fun a b => leb (f a) (f b)) x l).
Proof.
  induction l as [|y l IH]; simpl; [reflexivity|].
  destruct (leb (f x) (f y)); simpl; [reflexivity | rewrite IH; reflexivity].
Qed.

Lemma sort_by_map {A B} (f : A -> B) (leb : B -> B -> bool) (l : list A) :
  sort_by leb (List.map f l) = List.map f (sort_by (fun a b => leb (f a) (f b)) l).
Proof.
  induction l as [|x l IH]; simpl; [reflexivity|].
  rewrite IH, insert_by_map. reflexivity.
Qed.

(** Ranking the images of rows is ranking the rows. *)
Lemma sort_values_desc_map {A B} (f : A -> B) (key : B -> option Q) (l : list A) :
  sort_values_desc key (List.map f l)
  = List.map f (sort_values_desc (fun x => key (f x)) l).
Proof.
  unfold sort_values_desc.
  rewrite !List.filter_map_swap, sort_by_map, List.map_app. reflexivity.
Qed.

(** C1. The restricted population is exactly the rows of the filtered
    dataset, in order, that have a recommendation count and more than 100
    members; the ratio of such a row is its recommendation count divided
    by its members. When the population is empty no table is computed.
    Otherwise the table of hidden gems is made of the first 10 rows of a
    ranking, projected on title, score, members and ratio: the ranking
    holds exactly the rows of the population whose members are below the
    median of members and whose ratio is above the median ratio, both the
    interpolated medians of that same population; it is in descending
    order of the ratio, rows with equal ratios in their original order; a
    row left out of the first 10 ranks no higher than any row kept. *)
Theorem C1_hidden_gems (dff : list row) :
  exists (in_population : row -> bool) (ratio : row -> option Q),
    (forall r, in_population r = true <->
               exists c m, recommendation_count r = Some c
                           /\ members r = Some m /\ 100 < m)
    /\ df_gems dff = List.filter in_population dff
    /\ (forall r, List.In r (df_gems dff) ->
                  exists c m, recommendation_count r = Some c
                              /\ members r = Some m
                              /\ ratio r = Some (inject_Z c / inject_Z m)%Q)
    /\ match df_gems dff with
       | [] => hidden dff = None
       | _ :: _ =>
           exists (ms rs : list Q) (mm mr : Q) (is_gem : row -> bool)
                  (ranked : list row),
             Forall2 (fun r x => exists m, members r = Some m /\ x = inject_Z m)
               (df_gems dff) ms
             /\ Forall2 (fun r x => ratio r = Some x) (df_gems dff) rs
             /\ interpolated_median ms mm
             /\ interpolated_median rs mr
             /\ (forall r, List.In r (df_gems dff) ->
                           (is_gem r = true <->
                            exists m x, members r = Some m /\ ratio r = Some x
                                        /\ (inject_Z m < mm)%Q /\ (mr < x)%Q))
             /\ ranked_desc ratio (List.filter is_gem (df_gems dff)) ranked
             /\ hidden dff
                = Some (List.map
                          (fun r => {| hidden_title := title r;
                                       hidden_score := score r;
                                       hidden_members := members r;
                                       hidden_rec_ratio := ratio r |})
                          (firstn 10 ranked))
             /\ (forall r r', List.In r (firstn 10 ranked) ->
                              List.In r' (skipn 10 ranked) ->
                              ranks_before ratio r r')
             /\ (List.length (firstn 10 ranked) <= 10)%nat
       end.
Proof.
  set (ratio := fun r => rec_ratio (add_rec_ratio r)).
  exists gems_mask, ratio.
  split; [exact gems_mask_spec|]. split; [reflexivity|].
  assert (Hpop : forall r, List.In r (df_gems dff) ->
                   exists c m, recommendation_count r = Some c
                               /\ members r = Some m
                               /\ ratio r = Some (inject_Z c / inject_Z m)%Q).
  { intros r Hr.
    destruct (df_gems_rows dff (add_rec_ratio r) (List.in_map add_rec_ratio _ _ Hr))
      as (_ & c & m & Hc & Hm & _ & Hrat).
    exists c, m. auto. }
  split; [exact Hpop|].
  destruct (df_gems dff) as [|r0 rest] eqn:E.
  { unfold hidden. rewrite E. reflexivity. }
  rewrite <- E in *. set (pop := df_gems dff) in *.
  set (gs := List.map add_rec_ratio pop).
  destruct (medians_defined dff) as (mm & mr & Hmm & Hmr).
  { fold pop. rewrite E. discriminate. }
  fold pop in Hmm, Hmr. fold gs in Hmm, Hmr.
  set (is_gem := fun r => hidden_mask gs (add_rec_ratio r)).
  pose proof (sort_values_desc_ranked ratio (List.filter is_gem pop)) as Hrank.
  exists (dropna (List.map members_cell gs)), (dropna (List.map rec_ratio gs)),
    mm, mr, is_gem, (sort_values_desc ratio (List.filter is_gem pop)).
  split.
  { unfold gs. rewrite List.map_map.
    eapply List.Forall2_impl;
      [|apply (dropna_Forall2 (fun r => members_cell (add_rec_ratio r)))].
    - intros r x Hx. unfold members_cell in Hx. simpl in Hx.
      destruct (members r) as [m|]; [|discriminate]. exists m.
      simpl in Hx. split; [reflexivity | congruence].
    - intros r Hr. destruct (Hpop r Hr) as (c & m & _ & Hm & _).
      unfold members_cell. simpl. rewrite Hm. simpl. eauto. }
  split.
  { unfold gs. rewrite List.map_map. apply (dropna_Forall2 ratio).
    intros r Hr. destruct (Hpop r Hr) as (c & m & _ & _ & Hrat). eauto. }
  split; [apply median_interpolated; exact Hmm|].
  split; [apply median_interpolated; exact Hmr|].
  split.
  { intros r _. unfold is_gem.
    apply (hidden_mask_spec gs (add_rec_ratio r) mm mr Hmm Hmr). }
  split; [exact Hrank|]. split.
  { unfold hidden. fold pop. fold gs.
    assert (Hlen : (0 <? List.length gs)%nat = true).
    { unfold gs. rewrite E. reflexivity. }
    rewrite Hlen. f_equal. unfold hidden_gems, nlargest, gs.
    rewrite List.filter_map_swap. fold gs. fold is_gem.
    rewrite sort_values_desc_map. fold ratio.
    rewrite List.firstn_map, List.map_map. reflexivity. }
  split.
  { destruct Hrank as (_ & Hs & _). apply firstn_sorted. exact Hs. }
  apply List.firstn_le_length.
Qed.


(** ** Distinct values and their counts *)

Section CountingFacts.

Context {A : Type}.
Variable eqb : A -> A -> bool.
Hypothesis eqb_spec : forall x y, eqb x y = true <-> x = y.

Lemma eqb_refl' (x : A) : eqb x x = true.
Proof. apply eqb_spec. reflexivity. Qed.

Lemma eqb_neq (x y : A) : x <> y -> eqb x y = false.
Proof.
  intros H. destruct (eqb x y) eqn:E; [|reflexivity].
  apply eqb_spec in E. contradiction.
Qed.

Lemma unique_In (l : list A) (x : A) : List.In x (unique eqb l) <-> List.In x l.
Proof.
  induction l as [|y l IH]; simpl; [reflexivity|].
  rewrite List.filter_In, IH. split.
  - intros [H | [H _]]; auto.
  - intros [H | H]; [auto|].
    destruct (eqb y x) eqn:E.
    + left. apply eqb_spec. exact E.
    + right. auto.
Qed.

Lemma unique_NoDup (l : list A) : List.NoDup (unique eqb l).
Proof.
  induction l as [|y l IH]; cbn [unique]; constructor.
  - intros H. apply List.filter_In in H as [_ H].
    rewrite eqb_refl' in H. discriminate.
  - apply List.NoDup_filter. exact IH.
Qed.

Lemma count_eq_app (x : A) (l1 l2 : list A) :
  count_eq eqb x (l1 ++ l2) = (count_eq eqb x l1 + count_eq eqb x l2)%nat.
Proof. unfold count_eq. rewrite List.filter_app, List.length_app. reflexivity. Qed.

Lemma count_eq_pos (x : A) (l : list A) :
  List.In x l -> (0 < count_eq eqb x l)%nat.
Proof.
  unfold count_eq. induction l as [|y l IH]; simpl; [tauto|].
  intros [-> | H].
  - rewrite eqb_refl'. simpl. lia.
  - destruct (eqb x y); simpl; auto with arith.
Qed.

(** In a list without repetition, exactly one element equals [x]. *)
Lemma filter_eqb_NoDup (x : A) (l : list A) :
  List.NoDup l -> List.In x l -> List.filter (eqb x) l = [x].
Proof.
  induction 1 as [|y l Hy Hl IH]; simpl; [tauto|].
  intros [-> | Hx].
  - rewrite eqb_refl'. f_equal. apply filter_nothing.
    intros z Hz. apply eqb_neq. intros ->. contradiction.
  - rewrite eqb_neq; [auto|]. intros ->. contradiction.
Qed.

Lemma value_counts_fst (l : list A) :
  Permutation (List.map fst (value_counts eqb l)) (unique eqb l).
Proof.
  unfold value_counts. rewrite <- sort_by_perm, List.map_map. simpl.
  rewrite List.map_id. reflexivity.
Qed.

Lemma value_counts_In (l : list A) (x : A) (n : nat) :
  List.In (x, n) (value_counts eqb l) <-> List.In x l /\ n = count_eq eqb x l.
Proof.
  unfold value_counts. rewrite sort_by_In, List.in_map_iff. split.
  - intros (y & E & Hy). apply (proj1 (unique_In l y)) in Hy.
    injection E as -> <-. split; [exact Hy | reflexivity].
  - intros [Hx ->]. exists x. split; [reflexivity|]. apply unique_In. exact Hx.
Qed.

Lemma value_counts_sorted (l : list A) :
  StronglySorted (fun a b => (snd b <= snd a)%nat) (value_counts eqb l).
Proof.
  unfold value_counts.
  set (leb := fun a b : A * nat => (snd b <=? snd a)%nat).
  assert (H : StronglySorted (fun a b => leb a b = true)
                (sort_by leb (List.map (fun x => (x, count_eq eqb x l)) (unique eqb l)))).
  { apply sort_by_sorted; unfold leb.
    - intros a b. destruct (Nat.leb_spec (snd b) (snd a)); [auto|].
      right. apply Nat.leb_le. lia.
    - intros a b c. rewrite !Nat.leb_le. lia. }
  induction H as [|a s Hs IH Ha]; constructor; [exact IH|].
  rewrite List.Forall_forall in *. intros b Hb.
  apply Nat.leb_le. apply Ha. exact Hb.
Qed.

(** The [n] most frequent values: distinct values of the list, as many
    as there are up to [n], each at least as frequent as any value left
    out. *)
Lemma most_frequent (n : nat) (l : list A) :
  let top := List.map fst (head n (value_counts eqb l)) in
  List.NoDup top
  /\ (forall x, List.In x top -> List.In x l)
  /\ List.length top = Nat.min n (List.length (unique eqb l))
  /\ (forall x y, List.In x top -> List.In y l -> ~ List.In y top ->
                  (count_eq eqb y l <= count_eq eqb x l)%nat).
Proof.
  intros top. unfold head in top.
  pose proof (value_counts_fst l) as Hperm.
  pose proof (value_counts_sorted l) as Hsort.
  set (vc := value_counts eqb l) in *.
  assert (Hnd : List.NoDup (List.map fst vc)).
  { apply (Permutation_NoDup (Permutation_sym Hperm)), unique_NoDup. }
  rewrite <- (List.firstn_skipn n vc) in Hnd.
  rewrite List.map_app in Hnd.
  split; [exact (List.NoDup_app_remove_r _ _ Hnd)|].
  assert (Hin : forall x, List.In x top -> List.In (x, count_eq eqb x l) (firstn n vc)).
  { intros x Hx. apply List.in_map_iff in Hx as ([x' c] & <- & Hx). simpl.
    assert (Hv : List.In (x', c) vc).
    { rewrite <- (List.firstn_skipn n vc). apply List.in_or_app. auto. }
    apply value_counts_In in Hv as [_ ->]. exact Hx. }
  split; [|split].
  - intros x Hx. apply Hin in Hx.
    assert (Hv : List.In (x, count_eq eqb x l) vc).
    { rewrite <- (List.firstn_skipn n vc). apply List.in_or_app. auto. }
    apply value_counts_In in Hv. tauto.
  - subst top. rewrite List.length_map, List.length_firstn.
    rewrite <- (Permutation_length Hperm), List.length_map. reflexivity.
  - intros x y Hx Hy Hny.
    assert (Hv : List.In (y, count_eq eqb y l) vc)
      by (apply value_counts_In; auto).
    rewrite <- (List.firstn_skipn n vc) in Hv.
    apply List.in_app_or in Hv as [Hv | Hv].
    + exfalso. apply Hny. subst top.
      apply List.in_map_iff. exists (y, count_eq eqb y l). auto.
    + destruct (firstn_sorted _ n vc Hsort) as [_ Hc].
      exact (Hc _ _ (Hin x Hx) Hv).
Qed.

End CountingFacts.

(** ** The genre grid *)

Lemma option_Z_eqb_spec (a b : option Z) : option_Z_eqb a b = true <-> a = b.
Proof.
  destruct a as [x|], b as [y|]; simpl; try (split; congruence).
  rewrite Z.eqb_eq. split; congruence.
Qed.

Lemma decade_leb_total (a b : option Z) :
  decade_leb a b = true \/ decade_leb b a = true.
Proof. destruct a, b; simpl; auto. lia. Qed.

Lemma decade_leb_trans (a b c : option Z) :
  decade_leb a b = true -> decade_leb b c = true -> decade_leb a c = true.
Proof. destruct a, b, c; simpl; try discriminate; auto. lia. Qed.

(** The decades of the grid: each decade of a row of the restricted
    subset, once, in ascending order. *)
Lemma decades_spec (dff : list row) :
  List.NoDup (decades dff)
  /\ StronglySorted (fun a b => decade_leb a b = true) (decades dff)
  /\ forall d, List.In d (decades dff) <->
               exists r, List.In r (df_trends dff) /\ decade_of r = d.
Proof.
  unfold decades. split; [|split].
  - eapply Permutation_NoDup; [apply sort_by_perm|].
    apply unique_NoDup, option_Z_eqb_spec.
  - apply sort_by_sorted; [apply decade_leb_total | apply decade_leb_trans].
  - intros d. rewrite sort_by_In, (unique_In _ option_Z_eqb_spec), List.in_map_iff.
    split; intros (r & H1 & H2); exists r; auto.
Qed.

Lemma genre_counts_loop_keys (dff : list row) (ds : list (option Z))
  (gs : list string) :
  List.map cell_key (genre_counts_loop dff ds gs) = list_prod ds gs.
Proof.
  unfold genre_counts_loop. induction ds as [|d ds IH]; simpl; [reflexivity|].
  rewrite List.map_app, IH, List.map_map. reflexivity.
Qed.

Lemma NoDup_list_prod {A B} (l1 : list A) (l2 : list B) :
  List.NoDup l1 -> List.NoDup l2 -> List.NoDup (list_prod l1 l2).
Proof.
  intros H1 H2. induction H1 as [|x l1 Hx H1 IH]; simpl; [constructor|].
  apply List.NoDup_app.
  - clear -H2. induction H2 as [|y l2 Hy H2 IH]; simpl; constructor; [|exact IH].
    rewrite List.in_map_iff. intros (z & E & Hz). congruence.
  - exact IH.
  - intros [a b] Ha Hb. apply List.in_map_iff in Ha as (z & E & _).
    apply List.in_prod_iff in Hb as [Hb _]. congruence.
Qed.

Lemma count_eq_flat_map (g : string) (l : list row) :
  count_eq String.eqb g (List.flat_map genres_list l)
  = nat_sum (List.map (fun r => count_eq String.eqb g (genres_list r)) l).
Proof.
  induction l as [|r l IH]; simpl; [reflexivity|].
  rewrite count_eq_app, IH. reflexivity.
Qed.

Lemma nat_sum_app (l1 l2 : list nat) :
  nat_sum (l1 ++ l2) = (nat_sum l1 + nat_sum l2)%nat.
Proof. induction l1 as [|n l1 IH]; simpl; [reflexivity | rewrite IH; lia]. Qed.

Lemma eq_cell_other (z : Z) (d : option Z) : Some z <> d -> eq_cell (Some z) d = false.
Proof.
  intros H. destruct d as [y|]; simpl; [|reflexivity].
  apply Z.eqb_neq. congruence.
Qed.

Lemma eq_cell_same (z : Z) : eq_cell (Some z) (Some z) = true.
Proof. apply Z.eqb_refl. Qed.

Lemma nat_sum_no_class (z : Z) (a : nat) (h : option Z -> nat)
  (ds : list (option Z)) :
  ~ List.In (Some z) ds ->
  nat_sum (List.map (fun d => ((if eq_cell (Some z) d then a else 0) + h d)%nat) ds)
  = nat_sum (List.map h ds).
Proof.
  induction ds as [|d ds IH]; intros Hn; [reflexivity|].
  cbn [List.map nat_sum].
  rewrite eq_cell_other by (intros E; apply Hn; left; congruence).
  rewrite IH by (intros E; apply Hn; right; exact E). reflexivity.
Qed.

(** In a list of distinct decades holding [Some z], one entry equals it. *)
Lemma nat_sum_one_class (z : Z) (a : nat) (h : option Z -> nat)
  (ds : list (option Z)) :
  List.NoDup ds -> List.In (Some z) ds ->
  nat_sum (List.map (fun d => ((if eq_cell (Some z) d then a else 0) + h d)%nat) ds)
  = (a + nat_sum (List.map h ds))%nat.
Proof.
  induction 1 as [|d ds Hd Hnd IH]; [intros []|].
  intros Hin. cbn [List.map nat_sum]. destruct Hin as [-> | Hin].
  - rewrite eq_cell_same, (nat_sum_no_class z a h ds Hd). lia.
  - rewrite (IH Hin), eq_cell_other by (intros <-; contradiction). lia.
Qed.

(** Adding, over distinct decades, what the rows of each decade
    contribute gives what all rows contribute, when every row has one of
    these decades. *)
Lemma nat_sum_by_decade (f : row -> nat) (ds : list (option Z)) (l : list row) :
  List.NoDup ds ->
  (forall r, List.In r l -> exists z, decade_of r = Some z /\ List.In (Some z) ds) ->
  nat_sum (List.map
             (fun d => nat_sum (List.map f
                          (List.filter (fun r => eq_cell (decade_of r) d) l))) ds)
  = nat_sum (List.map f l).
Proof.
  intros Hnd. induction l as [|r l IH]; intros Hl.
  - cbn [List.filter List.map nat_sum]. clear. induction ds as [|d ds IHd]; [reflexivity|].
    cbn [List.map nat_sum]. exact IHd.
  - destruct (Hl r (or_introl eq_refl)) as (z & Hz & Hin).
    cbn [List.map nat_sum].
    rewrite <- IH by (intros r' Hr'; apply Hl; right; exact Hr').
    rewrite <- (nat_sum_one_class z (f r) _ ds Hnd Hin).
    f_equal. apply List.map_ext. intros d. cbn [List.filter]. rewrite Hz.
    destruct (eq_cell (Some z) d); reflexivity.
Qed.

Lemma genre_total_loop (dff : list row) (ds : list (option Z)) (gs : list string)
  (g : string) :
  List.NoDup gs -> List.In g gs ->
  genre_total (genre_counts_loop dff ds gs) g
  = nat_sum (List.map (fun d => count_eq String.eqb g (decade_genres dff d)) ds).
Proof.
  intros Hnd Hin. unfold genre_total, genre_counts_loop.
  induction ds as [|d ds IH]; [reflexivity|].
  cbn [List.flat_map]. rewrite List.filter_app, List.map_app, nat_sum_app.
  cbn [List.map nat_sum]. rewrite <- IH. clear IH. f_equal.
  assert (E : List.filter (fun c => String.eqb g (genre c))
                (List.map (fun g0 => {| decade := d; genre := g0;
                     count := count_eq String.eqb g0 (decade_genres dff d) |}) gs)
              = List.map (fun g0 => {| decade := d; genre := g0;
                     count := count_eq String.eqb g0 (decade_genres dff d) |})
                  (List.filter (String.eqb g) gs)).
  { clear. induction gs as [|g0 gs IH]; simpl; [reflexivity|].
    destruct (String.eqb g g0); simpl; rewrite IH; reflexivity. }
  rewrite E, (filter_eqb_NoDup String.eqb String.eqb_eq g gs Hnd Hin).
  simpl. lia.
Qed.

Lemma all_genres_empty (dff : list row) : all_genres dff = [] -> df_trends dff = [].
Proof.
  unfold all_genres. destruct (df_trends dff) as [|r l] eqn:E; [reflexivity|].
  assert (Hr : List.In r (df_trends dff)) by (rewrite E; left; reflexivity).
  unfold df_trends in Hr. apply List.filter_In in Hr as [_ Hr].
  simpl. destruct (genres_list r); [discriminate|]. discriminate.
Qed.

Lemma top_genres_empty (dff : list row) : top_genres dff = [] -> df_trends dff = [].
Proof.
  intros H. apply all_genres_empty.
  destruct (most_frequent String.eqb String.eqb_eq 6 (all_genres dff))
    as (_ & _ & Hlen & _).
  fold (top_genres dff) in Hlen. rewrite H in Hlen. simpl in Hlen.
  destruct (all_genres dff) as [|g l] eqn:E; [reflexivity|].
  simpl in Hlen. lia.
Qed.

Lemma decade_of_filtered (df : list row) (yr : Z * Z) (sm : Q) (r : row) :
  List.In r (df_trends (df_filtered df yr sm)) ->
  exists y, year r = Some y
            /\ decade_of r = Some (y / 10 * 10)
            /\ fst yr <= y <= snd yr.
Proof.
  intros Hr. unfold df_trends in Hr. apply List.filter_In in Hr as [Hr _].
  unfold df_filtered in Hr. apply List.filter_In in Hr as [_ Hm].
  apply filter_mask_spec in Hm as (y & s & Hy & _ & Hlo & Hhi & _).
  exists y. split; [exact Hy|]. split; [|lia].
  unfold decade_of. rewrite Hy. reflexivity.
Qed.

(** C3, as the code has it. The restricted subset is exactly the rows of
    the filtered dataset, in order, whose genres_list is not empty; each
    of them has a year, and its decade is that year rounded down to a
    multiple of 10. No grid is built when that subset is empty. Otherwise,
    with D the decades of its rows, in ascending order, and G the most
    frequent genres, 6 of them or all of them when fewer than 6 occur:
    the grid is dense, one cell for every pair of D x G in that order and
    no other cell, so it has #D x #G cells; the count of a cell is the
    number of occurrences of its genre among the rows of its decade (0
    when there is none); and the counts of a genre of G over all decades
    add up to its number of occurrences in the restricted subset. *)
Theorem C3_genre_grid (df : list row) (yr : Z * Z) (sm : Q) :
  let dff := df_filtered df yr sm in
  let D := decades dff in
  let G := top_genres dff in
  exists has_genre : row -> bool,
    (forall r, has_genre r = true <-> genres_list r <> [])
    /\ df_trends dff = List.filter has_genre dff
    /\ all_genres dff = List.flat_map genres_list (df_trends dff)
    /\ (forall r, List.In r (df_trends dff) ->
                  exists y, year r = Some y /\ decade_of r = Some (y / 10 * 10))
    /\ match genre_counts dff with
       | None => df_trends dff = []
       | Some grid =>
           df_trends dff <> []
           /\ List.map cell_key grid = list_prod D G
           /\ List.NoDup (List.map cell_key grid)
           /\ List.length grid = (List.length D * List.length G)%nat
           /\ List.length G
              = Nat.min 6 (List.length (unique String.eqb (all_genres dff)))
           /\ (List.NoDup D
               /\ StronglySorted (fun a b => decade_leb a b = true) D
               /\ forall d, List.In d D <->
                            exists r, List.In r (df_trends dff) /\ decade_of r = d)
           /\ (List.NoDup G
               /\ (forall g, List.In g G -> List.In g (all_genres dff))
               /\ forall g g', List.In g G -> List.In g' (all_genres dff) ->
                               ~ List.In g' G ->
                               (count_eq String.eqb g' (all_genres dff)
                                <= count_eq String.eqb g (all_genres dff))%nat)
           /\ (forall c, List.In c grid ->
                 exists (z : Z) (in_decade : row -> bool),
                   decade c = Some z
                   /\ (forall r, List.In r (df_trends dff) ->
                                 (in_decade r = true <->
                                  exists y, year r = Some y /\ y / 10 * 10 = z))
                   /\ count c
                      = count_eq String.eqb (genre c)
                          (List.flat_map genres_list
                             (List.filter in_decade (df_trends dff)))
                   /\ (0 <= count c)%nat)
           /\ (forall g, List.In g G ->
                         genre_total grid g = count_eq String.eqb g (all_genres dff))
       end.
Proof.
  intros dff D G.
  exists (fun r => (0 <? List.length (genres_list r))%nat).
  split.
  { intros r. destruct (genres_list r) as [|g l]; simpl; split; intros H;
      try discriminate; try reflexivity.
    exfalso. apply H. reflexivity. }
  split; [reflexivity|]. split; [reflexivity|].
  assert (Hdec : forall r, List.In r (df_trends dff) ->
                   exists y, year r = Some y /\ decade_of r = Some (y / 10 * 10)).
  { intros r Hr. destruct (decade_of_filtered df yr sm r Hr) as (y & Hy & Hd & _).
    eauto. }
  split; [exact Hdec|].
  unfold genre_counts. fold G.
  destruct G as [|g0 G'] eqn:EG; [apply top_genres_empty; exact EG|].
  rewrite <- EG. fold D.
  destruct (most_frequent String.eqb String.eqb_eq 6 (all_genres dff))
    as (Gnd & Gin & Glen & Gtop).
  fold (top_genres dff) in Gnd, Gin, Glen, Gtop. fold G in Gnd, Gin, Glen, Gtop.
  destruct (decades_spec dff) as (Dnd & Dsort & Din). fold D in Dnd, Dsort, Din.
  assert (Hkeys := genre_counts_loop_keys dff D G).
  split.
  { intros Hnil.
    assert (Hg0 : List.In g0 (all_genres dff)) by (apply Gin; rewrite EG; left; reflexivity).
    unfold all_genres in Hg0. rewrite Hnil in Hg0. destruct Hg0. }
  split; [exact Hkeys|]. split.
  { rewrite Hkeys. apply NoDup_list_prod; assumption. }
  split.
  { rewrite <- (List.length_map cell_key), Hkeys. apply List.length_prod. }
  split; [exact Glen|]. split; [split; [|split]; assumption|].
  split; [split; [|split]; assumption|]. split.
  - intros c Hc. unfold genre_counts_loop in Hc.
    apply List.in_flat_map in Hc as (d & Hd & Hc).
    apply List.in_map_iff in Hc as (g & <- & _). simpl.
    destruct (proj1 (Din d) Hd) as (r & Hr & Hrd).
    destruct (Hdec r Hr) as (y & Hy & Hyd).
    assert (Ed : d = Some (y / 10 * 10)) by congruence.
    exists (y / 10 * 10), (fun r' => eq_cell (decade_of r') d).
    split; [exact Ed|]. split; [|split; [reflexivity | lia]].
    intros r' Hr'. destruct (Hdec r' Hr') as (y' & Hy' & Hyd').
    rewrite Hyd', Ed. simpl. rewrite Z.eqb_eq. split.
    + intros H. exists y'. auto.
    + intros (y'' & Hy'' & H). congruence.
  - intros g Hg. rewrite (genre_total_loop dff D G g Gnd Hg).
    unfold all_genres. rewrite count_eq_flat_map.
    rewrite <- (nat_sum_by_decade _ D (df_trends dff) Dnd).
    + f_equal. apply List.map_ext. intros d. unfold decade_genres, decade_data.
      apply count_eq_flat_map.
    + intros r Hr. destruct (Hdec r Hr) as (y & Hy & Hd).
      exists (y / 10 * 10). split; [exact Hd|]. apply Din. eauto.
Qed.

(** C3 as stated fails: with fewer than 6 genres in the data the grid has
    fewer than 6 cells per decade. One row of one genre gives a grid of
    one cell for one decade. *)
Lemma C3_grid_rows_counterexample :
  ~ (forall grid,
        genre_counts (df_filtered [gem_a] (2000, 2025) 6%Q) = Some grid ->
        List.length grid
        = Nat.mul (List.length (decades (df_filtered [gem_a] (2000, 2025) 6%Q))) 6).
Proof.
  intros H.
  specialize (H [{| decade := Some 2000; genre := "Action"; count := 1 |}] eq_refl).
  vm_compute in H. discriminate.
Qed.

(** ** Search *)

Lemma plain_not_paren (c : ascii) :
  re_special c = false ->
  Ascii.eqb c "(" = false /\ Ascii.eqb c ")" = false /\ Ascii.eqb c "." = false.
Proof.
  intros H. repeat split;
    match goal with
    | |- Ascii.eqb c ?d = false =>
        destruct (Ascii.eqb c d) eqn:E; [|reflexivity];
        apply Ascii.eqb_eq in E; subst c; discriminate H
    end.
Qed.

Lemma re_compile_plain (pat : list ascii) :
  forallb (fun c => negb (re_special c)) pat = true ->
  re_compile pat = Returns (List.map ReLit pat).
Proof.
  unfold re_compile. induction pat as [|c pat IH]; simpl; [reflexivity|].
  intros H. apply andb_prop in H as [Hc Hp].
  rewrite (IH Hp). apply negb_true_iff in Hc.
  destruct (plain_not_paren c Hc) as (-> & -> & ->). rewrite Hc. reflexivity.
Qed.

Lemma match_here_literal (q s : list ascii) :
  match_here (List.map ReLit q) s = true <-> exists post, lower s = lower q ++ post.
Proof.
  revert s. induction q as [|c q IH]; intros s.
  - simpl. split; [eauto | reflexivity].
  - destruct s as [|d s]; simpl.
    + split; [discriminate | intros (post & H); discriminate].
    + rewrite andb_true_iff, Ascii.eqb_eq, IH. split.
      * intros (Hc & post & Hp). exists post. unfold lower in *. congruence.
      * intros (post & H). injection H as H1 H2. split; [congruence | eauto].
Qed.

Lemma re_search_split (items : list re_item) (s : list ascii) :
  re_search items s = true <->
  exists pre suf, s = pre ++ suf /\ match_here items suf = true.
Proof.
  induction s as [|c s IH].
  - simpl. rewrite orb_false_r. split.
    + intros H. exists [], []. auto.
    + intros (pre & suf & E & H). symmetry in E.
      apply List.app_eq_nil in E as [_ ->]. exact H.
  - cbn [re_search]. rewrite orb_true_iff, IH. split.
    + intros [H | (pre & suf & -> & H)].
      * exists [], (c :: s). auto.
      * exists (c :: pre), suf. auto.
    + intros ([|c' pre] & suf & E & H).
      * simpl in E. subst suf. left. exact H.
      * injection E as -> ->. right. eauto.
Qed.

(** For a query of ordinary characters, matching is containment without
    regard to case. *)
Lemma re_search_literal (q s : list ascii) :
  re_search (List.map ReLit q) s = true <->
  exists pre post, lower s = pre ++ lower q ++ post.
Proof.
  rewrite re_search_split. split.
  - intros (pre & suf & -> & H). apply match_here_literal in H as (post & H).
    exists (lower pre), post. unfold lower in *. rewrite List.map_app, H. reflexivity.
  - intros (pre & post & H). unfold lower in H.
    apply List.map_eq_app in H as (p & suf & -> & Hp & Hs).
    exists p, suf. split; [reflexivity|].
    apply match_here_literal. exists post. exact Hs.
Qed.

(** What the claimed search is on ASCII text: for a query without
    characters that mean something in a pattern, the empty query gives
    the subset itself, and any other query gives the rows of the subset,
    in order, whose title is present and contains the query without
    regard to case. A row without a title never matches. *)
Lemma search_plain_query (dff : list row) (search : string) :
  ascii_text search = true ->
  (forall r t, List.In r dff -> title r = Some t -> ascii_text t = true) ->
  plain_query search = true ->
  exists (keep : row -> bool) (res : list row),
    results search dff = Returns res
    /\ (search = EmptyString -> res = dff)
    /\ (search <> EmptyString -> res = List.filter keep dff)
    /\ (forall r, keep r = true <->
                  exists t, title r = Some t /\ contains_ci search t)
    /\ (search <> EmptyString ->
        forall r, List.In r res <->
                  List.In r dff /\ exists t, title r = Some t /\ contains_ci search t).
Proof.
  intros _ _ Hplain. unfold plain_query, chars in Hplain.
  set (items := List.map ReLit (list_ascii_of_string search)).
  assert (Hkeep : forall r, str_contains items (title r) = true <->
                            exists t, title r = Some t /\ contains_ci search t).
  { intros r. unfold str_contains, contains_ci, chars. destruct (title r) as [t|].
    - subst items. rewrite re_search_literal. split.
      + intros H. exists t. auto.
      + intros (t' & E & H). injection E as ->. exact H.
    - split; [discriminate | intros (t & E & _); discriminate]. }
  exists (fun r => str_contains items (title r)).
  unfold results. rewrite (re_compile_plain _ Hplain). fold items.
  destruct (String.eqb_spec search EmptyString) as [E | E].
  - exists dff. split; [reflexivity|]. split; [reflexivity|].
    split; [contradiction|]. split; [exact Hkeep | contradiction].
  - eexists. split; [reflexivity|]. split; [contradiction|].
    split; [reflexivity|]. split; [exact Hkeep|].
    intros _ r. rewrite List.filter_In, Hkeep. reflexivity.
Qed.

Lemma not_contains_dot : ~ contains_ci "." "Gem A".
Proof.
  intros (pre & post & E).
  assert (Hin : List.In "."%char (lower (chars "Gem A"))).
  { rewrite E. apply List.in_or_app. right. left. reflexivity. }
  vm_compute in Hin. intuition discriminate.
Qed.

Lemma not_contains_paren : ~ contains_ci "(" "Gem A".
Proof.
  intros (pre & post & E).
  assert (Hin : List.In "("%char (lower (chars "Gem A"))).
  { rewrite E. apply List.in_or_app. right. left. reflexivity. }
  vm_compute in Hin. intuition discriminate.
Qed.

(** C5 (code defect). The query is not searched as a substring: it is
    compiled as a regular expression. The query made of one opening
    parenthesis raises [re.error] instead of returning the rows whose
    title holds a parenthesis (none, for the row titled Gem A); the query
    made of one dot returns the row titled Gem A, whose title holds no
    dot. *)
Theorem C5_search_compiles_query_as_pattern :
  (results "(" [gem_a] = Raises ReError /\ ~ contains_ci "(" "Gem A")
  /\ (results "." [gem_a] = Returns [gem_a] /\ ~ contains_ci "." "Gem A").
Proof.
  split; (split; [reflexivity|]); [apply not_contains_paren | apply not_contains_dot].
Qed.

(** ** Empty inputs *)

Lemma top_genre_total (dff : list row) : exists g, top_genre dff = ret g.
Proof.
  unfold top_genre. destruct (genres_flat dff) as [|g l] eqn:E; [eauto|].
  pose proof (value_counts_fst String.eqb (g :: l)) as Hp.
  destruct (List.map fst (value_counts String.eqb (g :: l))) as [|x xs].
  - apply Permutation_nil in Hp. discriminate.
  - simpl. eauto.
Qed.

Lemma hidden_none (dff : list row) : hidden dff = None <-> df_gems dff = [].
Proof.
  unfold hidden. destruct (df_gems dff); simpl; split; congruence.
Qed.

Lemma genre_counts_none (dff : list row) :
  genre_counts dff = None <-> df_trends dff = [].
Proof.
  split.
  - unfold genre_counts. intros H. apply top_genres_empty.
    destruct (top_genres dff); [reflexivity | discriminate].
  - intros H. unfold genre_counts, top_genres, all_genres. rewrite H. reflexivity.
Qed.

Lemma top_studios_none (dff : list row) :
  top_studios dff = None <-> studios_flat dff = [].
Proof.
  unfold top_studios. destruct (studios_flat dff); split; congruence.
Qed.

(** C8. On the empty filtered subset every aggregate is empty or neutral:
    no row, no mean, a zero sum, the top genre "N/A", no studio chart, no
    hidden-gems table, no genre grid, empty type tables. The partial
    operations are guarded: the most frequent genre is read from a
    non-empty index whatever the subset is, the medians and ratios of the
    hidden gems are computed exactly when the restricted subset has a row
    (and are then numbers), and the genre grid is built exactly when the
    rows listing a genre are not none. *)
Theorem C8_empty_inputs :
  (total_anime [] = 0%nat
   /\ avg_score [] = None
   /\ total_members [] == 0
   /\ top_genre [] = ret "N/A"
   /\ top_studios [] = None
   /\ hidden [] = None
   /\ genre_counts [] = None
   /\ type_counts [] = []
   /\ type_scores [] = [])
  /\ (forall dff, exists g, top_genre dff = ret g)
  /\ (forall dff, genres_flat dff = [] -> top_genre dff = ret "N/A")
  /\ (forall dff, top_studios dff = None <-> studios_flat dff = [])
  /\ (forall dff, hidden dff = None <-> df_gems dff = [])
  /\ (forall dff, hidden dff <> None ->
                  exists mm mr,
                    median_members (List.map add_rec_ratio (df_gems dff)) = Some mm
                    /\ median_ratio (List.map add_rec_ratio (df_gems dff)) = Some mr)
  /\ (forall dff, genre_counts dff = None <-> df_trends dff = []).
Proof.
  split; [repeat split; reflexivity|].
  split; [exact top_genre_total|]. split.
  { intros dff H. unfold top_genre. rewrite H. reflexivity. }
  split; [exact top_studios_none|]. split; [exact hidden_none|]. split.
  { intros dff H. apply medians_defined. intros E. apply H, hidden_none, E. }
  exact genre_counts_none.
Qed.

(** ** The specification's two-row example: no hidden gem *)

Example hidden_example :
  hidden (df_filtered [gem_a; big_b] (2000, 2020) 0%Q) = Some [].
Proof. vm_compute. reflexivity. Qed.

Example median_members_example :
  median_members (List.map add_rec_ratio [gem_a; big_b]) = Some (1000150 # 2)%Q.
Proof. vm_compute. reflexivity. Qed.

Example genre_counts_example :
  genre_counts (df_filtered [gem_a; big_b] (2000, 2020) 0%Q)
  = Some [ {| decade := Some 2000; genre := "Action"; count := 1 |};
           {| decade := Some 2000; genre := "Drama"; count := 0 |};
           {| decade := Some 2010; genre := "Action"; count := 1 |};
           {| decade := Some 2010; genre := "Drama"; count := 1 |} ].
Proof. vm_compute. reflexivity. Qed.

(** ** A session on a two-row dataset *)

Lemma C7_filter_idempotent_non_mutating_witness :
  let f := [(gem_a, []); (big_b, [])] in
  let s : store := {[ 0%nat := f ]} in
  s !! 0%nat = Some f
  /\ (exists s', session 0%nat [((2000, 2020), 0%Q); ((2006, 2025), 6%Q)] s = Some s'
                 /\ s' !! 0%nat = Some f).
Proof.
  intros f s. split; [reflexivity|].
  apply (C7_filter_idempotent_non_mutating 0%nat s f (2000, 2020) 0%Q
           [((2000, 2020), 0%Q); ((2006, 2025), 6%Q)]).
  reflexivity.
Defined.

(** * Further properties of the script *)

(** ** The bounds of the year slider *)

Lemma fold_min_le (y : Z) (ys : list Z) :
  List.fold_right Z.min y ys <= y
  /\ (forall x, List.In x ys -> List.fold_right Z.min y ys <= x)
  /\ List.In (List.fold_right Z.min y ys) (y :: ys).
Proof.
  induction ys as [|z ys (IH1 & IH2 & IH3)]; simpl.
  - split; [lia|]. split; [tauto | auto].
  - split; [lia|]. split.
    + intros x [<- | Hx]; [lia|]. specialize (IH2 x Hx). lia.
    + destruct (Z.min_spec z (List.fold_right Z.min y ys)) as [[_ ->] | [_ ->]].
      * right. left. reflexivity.
      * simpl in IH3. tauto.
Qed.

Lemma fold_max_ge (y : Z) (ys : list Z) :
  y <= List.fold_right Z.max y ys
  /\ (forall x, List.In x ys -> x <= List.fold_right Z.max y ys)
  /\ List.In (List.fold_right Z.max y ys) (y :: ys).
Proof.
  induction ys as [|z ys (IH1 & IH2 & IH3)]; simpl.
  - split; [lia|]. split; [tauto | auto].
  - split; [lia|]. split.
    + intros x [<- | Hx]; [lia|]. specialize (IH2 x Hx). lia.
    + destruct (Z.max_spec z (List.fold_right Z.max y ys)) as [[_ ->] | [_ ->]].
      * simpl in IH3. tauto.
      * right. left. reflexivity.
Qed.

Lemma dropna_In {A} (col : list (option A)) (x : A) :
  List.In x (dropna col) <-> List.In (Some x) col.
Proof.
  induction col as [|[y|] col IH]; simpl.
  - reflexivity.
  - rewrite IH. split; intros [H | H]; auto; left; congruence.
  - rewrite IH. split; [auto | intros [H | H]; [discriminate | exact H]].
Qed.

Lemma existsb_notna {A} (col : list (option A)) :
  existsb notna col = false <-> dropna col = [].
Proof.
  induction col as [|[y|] col IH]; simpl.
  - tauto.
  - split; discriminate.
  - exact IH.
Qed.

(** Every year of the dataset lies between the two bounds. *)
Lemma year_within_bounds (df : list row) (lo hi : Z) (r : row) (y : Z) :
  min_year df = ret lo ->
  max_year df = ret hi ->
  List.In r df ->
  year r = Some y ->
  lo <= y <= hi.
Proof.
  unfold min_year, max_year, column_min, column_max. intros Hlo Hhi Hr Hy.
  assert (Hcol : List.In y (dropna (List.map year df))).
  { apply dropna_In. rewrite <- Hy. apply List.in_map. exact Hr. }
  destruct (existsb notna (List.map year df)) eqn:E.
  - destruct (dropna (List.map year df)) as [|z zs]; [destruct Hcol|].
    injection Hlo as <-. injection Hhi as <-.
    destruct (fold_min_le z zs) as (L1 & L2 & _).
    destruct (fold_max_ge z zs) as (U1 & U2 & _).
    destruct Hcol as [<- | Hz]; [lia|].
    specialize (L2 y Hz). specialize (U2 y Hz). lia.
  - apply existsb_notna in E. rewrite E in Hcol. destruct Hcol.
Qed.

(** X1. The slider bounds never fail to compute: [int] is applied to
    the minimum and maximum only when some year is present. They are
    years of the dataset, every year of the dataset lies between them,
    and they are 1917 and 2025 when the dataset has no year at all. *)
Theorem year_bounds (df : list row) :
  exists lo hi,
    min_year df = ret lo
    /\ max_year df = ret hi
    /\ lo <= hi
    /\ (forall r y, List.In r df -> year r = Some y -> lo <= y <= hi)
    /\ match dropna (List.map year df) with
       | [] => lo = 1917 /\ hi = 2025
       | _ :: _ => (exists r, List.In r df /\ year r = Some lo)
                   /\ (exists r, List.In r df /\ year r = Some hi)
       end.
Proof.
  unfold min_year, max_year, column_min, column_max.
  assert (Hin : forall y, List.In y (dropna (List.map year df)) ->
                          exists r, List.In r df /\ year r = Some y).
  { intros y Hy. apply dropna_In, List.in_map_iff in Hy as (r & E & Hr). eauto. }
  assert (Hcol : forall r y, List.In r df -> year r = Some y ->
                             List.In y (dropna (List.map year df))).
  { intros r y Hr Hy. apply dropna_In. rewrite <- Hy. apply List.in_map. exact Hr. }
  destruct (existsb notna (List.map year df)) eqn:E.
  - destruct (dropna (List.map year df)) as [|y ys] eqn:D.
    + apply existsb_notna in D. congruence.
    + destruct (fold_min_le y ys) as (L1 & L2 & L3).
      destruct (fold_max_ge y ys) as (U1 & U2 & U3).
      exists (List.fold_right Z.min y ys), (List.fold_right Z.max y ys).
      split; [reflexivity|]. split; [reflexivity|]. split; [lia|]. split.
      * intros r z Hr Hz. destruct (Hcol r z Hr Hz) as [<- | Hz'].
        -- lia.
        -- specialize (L2 z Hz'). specialize (U2 z Hz'). lia.
      * split; apply Hin; assumption.
  - apply existsb_notna in E. rewrite E.
    exists 1917, 2025. split; [reflexivity|]. split; [reflexivity|].
    split; [lia|]. split; [|split; reflexivity].
    intros r y Hr Hy. specialize (Hcol r y Hr Hy). rewrite E in Hcol. destruct Hcol.
Qed.

(** ** The filter and the metrics over it *)

Lemma filter_ext_in' {A} (p q : A -> bool) (l : list A) :
  (forall x, List.In x l -> p x = q x) -> List.filter p l = List.filter q l.
Proof.
  induction l as [|x l IH]; simpl; intros H; [reflexivity|].
  rewrite (H x (or_introl eq_refl)), IH; [reflexivity|].
  intros y Hy. apply H. right. exact Hy.
Qed.

Lemma filter_filter_and {A} (p q : A -> bool) (l : list A) :
  List.filter p (List.filter q l) = List.filter (fun x => q x && p x) l.
Proof.
  induction l as [|x l IH]; simpl; [reflexivity|].
  destruct (q x); simpl; [destruct (p x)|]; rewrite IH; reflexivity.
Qed.

(** X2. Filters compose: filtering a filtered subset with other bounds
    keeps the rows that pass both filters, whatever the order of the two;
    and when the second bounds are no wider than the first, the result is
    what the second filter gives on the whole dataset. *)
Theorem filter_narrowing (df : list row) (yr1 yr2 : Z * Z) (sm1 sm2 : Q) :
  fst yr1 <= fst yr2 ->
  snd yr2 <= snd yr1 ->
  (sm1 <= sm2)%Q ->
  df_filtered (df_filtered df yr1 sm1) yr2 sm2 = df_filtered df yr2 sm2
  /\ df_filtered (df_filtered df yr2 sm2) yr1 sm1 = df_filtered df yr2 sm2.
Proof.
  intros Hlo Hhi Hs.
  assert (Himp : forall r, filter_mask yr2 sm2 r = true -> filter_mask yr1 sm1 r = true).
  { intros r H. apply filter_mask_spec in H as (y & s & Hy & Hsc & H1 & H2 & H3).
    apply filter_mask_spec. exists y, s. repeat split; try assumption; try lia.
    apply (Qle_trans _ sm2); assumption. }
  unfold df_filtered. split.
  - apply filter_filter_imp. exact Himp.
  - rewrite filter_filter_and. apply filter_ext_in'. intros r _.
    destruct (filter_mask yr2 sm2 r) eqn:E; [|reflexivity].
    rewrite (Himp r E). reflexivity.
Qed.

Lemma filter_narrowing_witness :
  df_filtered (df_filtered [gem_a; big_b] (2000, 2020) 0%Q) (2006, 2015) 8%Q
  = df_filtered [gem_a; big_b] (2006, 2015) 8%Q
  /\ df_filtered (df_filtered [gem_a; big_b] (2006, 2015) 8%Q) (2000, 2020) 0%Q
     = df_filtered [gem_a; big_b] (2006, 2015) 8%Q.
Proof.
  apply (filter_narrowing [gem_a; big_b] (2000, 2020) (2006, 2015) 0%Q 8%Q);
    simpl; try lia. discriminate.
Defined.

(** X3. With the year slider left on the bounds computed from the
    dataset, no row is dropped on account of its year: a row with a year
    and with a score that reaches the minimum is in the filtered subset. *)
Theorem full_year_range_keeps (df : list row) (lo hi : Z) (sm : Q) (r : row)
  (y : Z) (s : Q) :
  min_year df = ret lo ->
  max_year df = ret hi ->
  List.In r df ->
  year r = Some y ->
  score r = Some s ->
  (sm <= s)%Q ->
  List.In r (df_filtered df (lo, hi) sm).
Proof.
  intros Hlo Hhi Hr Hy Hs Hsm.
  pose proof (year_within_bounds df lo hi r y Hlo Hhi Hr Hy) as Hb.
  unfold df_filtered. apply List.filter_In. split; [exact Hr|].
  apply filter_mask_spec. exists y, s. simpl.
  repeat split; try assumption; lia.
Qed.

Lemma full_year_range_keeps_witness :
  List.In gem_a (df_filtered [gem_a; big_b] (2005, 2010) 6%Q).
Proof.
  apply (full_year_range_keeps [gem_a; big_b] 2005 2010 6%Q gem_a 2005 9%Q);
    try reflexivity.
  - left. reflexivity.
  - discriminate.
Defined.

(** The mean of a column is missing exactly when no cell is present. *)
Lemma mean_none_iff (col : list (option Q)) : mean col = None <-> dropna col = [].
Proof.
  unfold mean. destruct (dropna col); split; congruence.
Qed.

(** X4. The average score shown for a filtered subset is missing (NaN)
    exactly when the subset is empty: every row that passes the filter
    has a score, so a subset with a row always has an average. *)
Theorem avg_score_missing_iff_empty (df : list row) (yr : Z * Z) (sm : Q) :
  avg_score (df_filtered df yr sm) = None <-> df_filtered df yr sm = [].
Proof.
  unfold avg_score. rewrite mean_none_iff. split.
  - intros H. destruct (df_filtered df yr sm) as [|r l] eqn:F; [reflexivity|].
    assert (Hr : List.In r (df_filtered df yr sm)) by (rewrite F; left; reflexivity).
    unfold df_filtered in Hr. apply List.filter_In in Hr as [_ Hm].
    apply filter_mask_spec in Hm as (y & s & _ & Hs & _).
    simpl in H. rewrite Hs in H. discriminate.
  - intros ->. reflexivity.
Qed.

(** ** Frequency tables *)

Lemma nat_sum_perm (l l' : list nat) : Permutation l l' -> nat_sum l = nat_sum l'.
Proof.
  induction 1 as [|x l l' _ IH|x y l|l l' l'' _ IH1 _ IH2]; simpl; lia.
Qed.

Lemma nat_sum_split {A} (h : A -> nat) (p : A -> bool) (u : list A) :
  nat_sum (List.map h u)
  = (nat_sum (List.map h (List.filter p u))
     + nat_sum (List.map h (List.filter (fun x => negb (p x)) u)))%nat.
Proof.
  induction u as [|x u IH]; simpl; [reflexivity|].
  destruct (p x); simpl; lia.
Qed.

Lemma nat_sum_firstn (n : nat) (l : list nat) : (nat_sum (firstn n l) <= nat_sum l)%nat.
Proof.
  rewrite <- (List.firstn_skipn n l) at 2. rewrite nat_sum_app. lia.
Qed.

Section TableFacts.

Context {A : Type}.
Variable eqb : A -> A -> bool.
Hypothesis eqb_spec : forall x y, eqb x y = true <-> x = y.

Lemma count_eq_absent (x : A) (l : list A) : ~ List.In x l -> count_eq eqb x l = 0%nat.
Proof.
  intros H. unfold count_eq. rewrite filter_nothing; [reflexivity|].
  intros y Hy. apply (eqb_neq eqb eqb_spec). intros ->. contradiction.
Qed.

Lemma count_eq_cons_same (x : A) (l : list A) :
  count_eq eqb x (x :: l) = S (count_eq eqb x l).
Proof. unfold count_eq. simpl. rewrite (eqb_refl' eqb eqb_spec). reflexivity. Qed.

Lemma count_eq_cons_other (x y : A) (l : list A) :
  x <> y -> count_eq eqb y (x :: l) = count_eq eqb y l.
Proof.
  intros H. unfold count_eq. simpl.
  rewrite (eqb_neq eqb eqb_spec y x); [reflexivity | congruence].
Qed.

Lemma In_or_not (x : A) (l : list A) : List.In x l \/ ~ List.In x l.
Proof.
  induction l as [|y l [IH | IH]]; simpl; [tauto | tauto |].
  destruct (eqb y x) eqn:E.
  - left. left. apply eqb_spec. exact E.
  - right. intros [H | H]; [|contradiction].
    apply eqb_spec in H. congruence.
Qed.

(** The counts of the distinct values of a list add up to its length. *)
Lemma unique_counts_total (l : list A) :
  nat_sum (List.map (fun x => count_eq eqb x l) (unique eqb l)) = List.length l.
Proof.
  induction l as [|x l IH]; [reflexivity|].
  cbn [unique List.map nat_sum List.length]. rewrite count_eq_cons_same.
  rewrite (nat_sum_split _ (eqb x) (unique eqb l)) in IH.
  assert (E1 : nat_sum (List.map (fun y => count_eq eqb y l)
                          (List.filter (eqb x) (unique eqb l)))
               = count_eq eqb x l).
  { destruct (In_or_not x l) as [Hin | Hout].
    - rewrite (filter_eqb_NoDup eqb eqb_spec x (unique eqb l));
        [simpl; lia | apply unique_NoDup, eqb_spec | apply unique_In; assumption].
    - rewrite filter_nothing.
      + simpl. symmetry. apply count_eq_absent. exact Hout.
      + intros y Hy. apply (eqb_neq eqb eqb_spec). intros ->.
        apply Hout. apply (unique_In eqb eqb_spec). exact Hy. }
  assert (E2 : List.map (fun y => count_eq eqb y (x :: l))
                 (List.filter (fun y => negb (eqb x y)) (unique eqb l))
               = List.map (fun y => count_eq eqb y l)
                   (List.filter (fun y => negb (eqb x y)) (unique eqb l))).
  { apply List.map_ext_in. intros y Hy. apply List.filter_In in Hy as [_ Hy].
    apply count_eq_cons_other. intros ->.
    rewrite (eqb_refl' eqb eqb_spec) in Hy. discriminate. }
  rewrite E2. lia.
Qed.

Lemma value_counts_total (l : list A) :
  nat_sum (List.map snd (value_counts eqb l)) = List.length l.
Proof.
  rewrite <- (unique_counts_total l). apply nat_sum_perm.
  unfold value_counts.
  rewrite <- (sort_by_perm _ (List.map (fun x => (x, count_eq eqb x l)) (unique eqb l))).
  rewrite List.map_map. reflexivity.
Qed.

(** The head of a frequency table. *)
Lemma head_value_counts (n : nat) (l : list A) :
  let top := head n (value_counts eqb l) in
  List.length top = Nat.min n (List.length (unique eqb l))
  /\ List.NoDup (List.map fst top)
  /\ (forall x c, List.In (x, c) top ->
                  List.In x l /\ c = count_eq eqb x l /\ (0 < c)%nat)
  /\ StronglySorted (fun a b => (snd b <= snd a)%nat) top
  /\ (forall x y, List.In x (List.map fst top) -> List.In y l ->
                  ~ List.In y (List.map fst top) ->
                  (count_eq eqb y l <= count_eq eqb x l)%nat)
  /\ (nat_sum (List.map snd top) <= List.length l)%nat.
Proof.
  intros top.
  destruct (most_frequent eqb eqb_spec n l) as (Hnd & Hin & Hlen & Htop).
  fold top in Hnd, Hin, Hlen, Htop.
  split; [rewrite List.length_map in Hlen; exact Hlen|].
  split; [exact Hnd|]. split; [|split; [|split]].
  - intros x c Hx.
    assert (Hv : List.In (x, c) (value_counts eqb l)).
    { unfold top, head in Hx. rewrite <- (List.firstn_skipn n (value_counts eqb l)).
      apply List.in_or_app. left. exact Hx. }
    apply (value_counts_In eqb eqb_spec) in Hv as [Hl ->].
    split; [exact Hl|]. split; [reflexivity|].
    apply (count_eq_pos eqb eqb_spec). exact Hl.
  - apply firstn_sorted. apply value_counts_sorted.
  - exact Htop.
  - rewrite <- (value_counts_total l). unfold top, head.
    rewrite <- List.firstn_map. apply nat_sum_firstn.
Qed.

End TableFacts.

(** ** The metrics and charts built on frequency tables *)

(** X5. When some row lists a genre, the top genre is a genre of the
    subset and no genre occurs more often. *)
Theorem top_genre_most_frequent (dff : list row) :
  genres_flat dff <> [] ->
  exists g,
    top_genre dff = ret g
    /\ List.In g (genres_flat dff)
    /\ forall g', (count_eq String.eqb g' (genres_flat dff)
                   <= count_eq String.eqb g (genres_flat dff))%nat.
Proof.
  intros Hne. unfold top_genre.
  destruct (genres_flat dff) as [|g0 l0] eqn:E; [congruence|]. clear Hne.
  rewrite <- E. set (l := genres_flat dff).
  destruct (most_frequent String.eqb String.eqb_eq 1 l) as (_ & Hin & Hlen & Htop).
  unfold head in *.
  destruct (value_counts String.eqb l) as [|[g n] vc] eqn:V.
  - simpl in Hlen. subst l. rewrite E in Hlen. simpl in Hlen. lia.
  - simpl in *. exists g. split; [reflexivity|].
    split; [apply Hin; left; reflexivity|].
    intros g'. destruct (String.eqb_spec g g') as [<- | Hneq]; [lia|].
    destruct (In_or_not String.eqb String.eqb_eq g' l) as [Hg | Hg].
    + apply Htop; [left; reflexivity | exact Hg | intros [H | []]; congruence].
    + rewrite (count_eq_absent String.eqb String.eqb_eq g' l Hg). lia.
Qed.

Lemma top_genre_most_frequent_witness :
  exists g,
    top_genre [gem_a; big_b] = ret g
    /\ List.In g (genres_flat [gem_a; big_b])
    /\ forall g', (count_eq String.eqb g' (genres_flat [gem_a; big_b])
                   <= count_eq String.eqb g (genres_flat [gem_a; big_b]))%nat.
Proof.
  apply (top_genre_most_frequent [gem_a; big_b]). discriminate.
Defined.

(** X6. The studio chart is built exactly when some studio is listed. It
    then shows at most 10 studios, all different, each with its number of
    occurrences in the subset (at least 1), by descending count; a studio
    left out does not occur more often than one shown, and the counts
    shown add up to no more than the number of studio entries. *)
Theorem top_studios_spec (dff : list row) :
  match top_studios dff with
  | None => studios_flat dff = []
  | Some top =>
      studios_flat dff <> []
      /\ List.length top
         = Nat.min 10 (List.length (unique String.eqb (studios_flat dff)))
      /\ List.NoDup (List.map fst top)
      /\ (forall s n, List.In (s, n) top ->
                      List.In s (studios_flat dff)
                      /\ n = count_eq String.eqb s (studios_flat dff)
                      /\ (0 < n)%nat)
      /\ StronglySorted (fun a b => (snd b <= snd a)%nat) top
      /\ (forall s s', List.In s (List.map fst top) ->
                       List.In s' (studios_flat dff) ->
                       ~ List.In s' (List.map fst top) ->
                       (count_eq String.eqb s' (studios_flat dff)
                        <= count_eq String.eqb s (studios_flat dff))%nat)
      /\ (nat_sum (List.map snd top) <= List.length (studios_flat dff))%nat
  end.
Proof.
  unfold top_studios. destruct (studios_flat dff) as [|s0 l0] eqn:E; [reflexivity|].
  split; [discriminate|].
  rewrite <- E. apply (head_value_counts String.eqb String.eqb_eq).
Qed.

Lemma count_eq_types (t : string) (dff : list row) :
  count_eq String.eqb t (dropna (List.map type dff))
  = List.length (List.filter (has_type t) dff).
Proof.
  unfold count_eq, has_type. induction dff as [|r dff IH]; [reflexivity|].
  simpl. destruct (type r) as [t'|]; simpl; [|exact IH].
  destruct (String.eqb t t'); simpl; rewrite IH; reflexivity.
Qed.

Lemma dropna_length {A} (col : list (option A)) :
  (List.length (dropna col) <= List.length col)%nat.
Proof. induction col as [|[x|] col IH]; simpl; lia. Qed.

(** X7. The type distribution shows at most 6 types, all different, each
    with the number of rows of that type (at least 1), by descending
    count; rows without a type are not counted, so the counts add up to
    no more than the number of rows. *)
Theorem type_counts_spec (dff : list row) :
  (List.length (type_counts dff) <= 6)%nat
  /\ List.NoDup (List.map fst (type_counts dff))
  /\ (forall t n, List.In (t, n) (type_counts dff) ->
                  n = List.length (List.filter (has_type t) dff) /\ (0 < n)%nat)
  /\ StronglySorted (fun a b => (snd b <= snd a)%nat) (type_counts dff)
  /\ (nat_sum (List.map snd (type_counts dff)) <= List.length dff)%nat.
Proof.
  unfold type_counts.
  destruct (head_value_counts String.eqb String.eqb_eq 6 (dropna (List.map type dff)))
    as (Hlen & Hnd & Hin & Hs & _ & Hsum).
  split; [lia|]. split; [exact Hnd|]. split; [|split; [exact Hs|]].
  - intros t n Ht. destruct (Hin t n Ht) as (_ & -> & Hpos).
    rewrite count_eq_types in *. split; [reflexivity | exact Hpos].
  - pose proof (dropna_length (List.map type dff)) as H.
    rewrite List.length_map in H. lia.
Qed.

Lemma flat_map_nonempty (l : list row) :
  List.flat_map genres_list
    (List.filter (fun r => (0 <? List.length (genres_list r))%nat) l)
  = List.flat_map genres_list l.
Proof.
  induction l as [|r l IH]; [reflexivity|]. simpl.
  destruct (genres_list r) as [|g gs] eqn:E; simpl; [exact IH|].
  rewrite E, IH. reflexivity.
Qed.

(** X8. The genre trends and the top-genre metric read the same genres:
    dropping the rows without a genre changes nothing in the list of
    genre occurrences. When some genre occurs, the genre shown as top
    genre is the first of the genres of the trend chart; when none
    occurs, the trend chart has no genre and the top genre is "N/A". *)
Theorem top_genre_heads_top_genres (dff : list row) :
  all_genres dff = genres_flat dff
  /\ match top_genres dff with
     | [] => top_genre dff = ret "N/A" /\ genres_flat dff = []
     | g :: _ => top_genre dff = ret g /\ genres_flat dff <> []
     end.
Proof.
  assert (E : all_genres dff = genres_flat dff) by apply flat_map_nonempty.
  split; [exact E|].
  unfold top_genres, top_genre, head. rewrite E.
  destruct (genres_flat dff) as [|g0 l0] eqn:F; [split; reflexivity|].
  pose proof (value_counts_fst String.eqb (g0 :: l0)) as Hp.
  destruct (value_counts String.eqb (g0 :: l0)) as [|[g n] vc].
  - apply Permutation_nil in Hp. discriminate.
  - split; [reflexivity | discriminate].
Qed.

(** ** Average score by type *)

Lemma sort_values_desc_In {A} (key : A -> option Q) (l : list A) (x : A) :
  List.In x (sort_values_desc key l) <-> List.In x l.
Proof.
  destruct (sort_values_desc_ranked key l) as (Hp & _).
  split; apply Permutation_in; [symmetry|]; exact Hp.
Qed.




(** ** How many hidden gems there can be *)

Lemma filter_length_split {A} (p : A -> bool) (l : list A) :
  (List.length (List.filter p l) + List.length (List.filter (fun x => negb (p x)) l)
   = List.length l)%nat.
Proof. induction l as [|x l IH]; simpl; [reflexivity|]. destruct (p x); simpl; lia. Qed.

Lemma filter_length_mono {A} (p q : A -> bool) (l : list A) :
  (forall x, p x = true -> q x = true) ->
  (List.length (List.filter p l) <= List.length (List.filter q l))%nat.
Proof.
  intros H. induction l as [|x l IH]; simpl; [lia|].
  destruct (p x) eqn:P; [rewrite (H x P); simpl; lia|].
  destruct (q x); simpl; lia.
Qed.

Lemma filter_length_dropna {A} (f : A -> option Q) (p : Q -> bool) (l : list A) :
  List.length (List.filter (fun a => match f a with
                                     | Some x => p x
                                     | None => false
                                     end) l)
  = List.length (List.filter p (dropna (List.map f l))).
Proof.
  induction l as [|a l IH]; simpl; [reflexivity|].
  destruct (f a) as [x|]; simpl; [|exact IH].
  destruct (p x); simpl; rewrite IH; reflexivity.
Qed.

(** X10. At most half of the restricted population can be hidden gems,
    since a hidden gem has fewer members than the median; and the table
    holds all of them when they are 10 or fewer, 10 of them otherwise. *)
Theorem hidden_at_most_half (dff : list row) :
  let gs := List.map add_rec_ratio (df_gems dff) in
  let candidates := List.filter (hidden_mask gs) gs in
  (2 * List.length candidates <= List.length gs)%nat
  /\ match hidden dff with
     | Some h => List.length h = Nat.min 10 (List.length candidates)
                 /\ (2 * List.length h <= List.length gs)%nat
     | None => gs = []
     end.
Proof.
  intros gs candidates.
  assert (Hhalf : (2 * List.length candidates <= List.length gs)%nat).
  { destruct (df_gems dff) as [|r0 rest] eqn:E.
    - subst candidates gs. simpl. lia.
    - destruct (medians_defined dff) as (mm & mr & Hmm & _).
      { rewrite E. discriminate. }
      rewrite E in Hmm. fold gs in Hmm.
      set (k := fun g => match members_cell g with
                         | Some x => Qle_bool mm x
                         | None => false
                         end).
      assert (Hk : (List.length gs <= 2 * List.length (List.filter k gs))%nat).
      { unfold k. rewrite (filter_length_dropna members_cell (Qle_bool mm) gs).
        destruct (median_middle (List.map members_cell gs) mm Hmm) as [_ H].
        rewrite dropna_all_some in H; [exact H|].
        intros g Hg.
        assert (Hg' : List.In g (List.map add_rec_ratio (df_gems dff)))
          by (rewrite E; exact Hg).
        destruct (df_gems_rows dff g Hg') as (_ & c & m & _ & Hm & _).
        unfold members_cell. rewrite Hm. simpl. eauto. }
      assert (Hc : (List.length candidates
                    <= List.length (List.filter (fun g => negb (k g)) gs))%nat).
      { apply filter_length_mono. intros g Hg. unfold hidden_mask in Hg.
        apply andb_prop in Hg as [Hg _]. rewrite Hmm in Hg.
        unfold k, lt_cell, Qlt_bool in *.
        destruct (members_cell g); [exact Hg | discriminate]. }
      pose proof (filter_length_split k gs). lia. }
  split; [exact Hhalf|].
  unfold hidden. change (List.map add_rec_ratio (df_gems dff)) with gs.
  destruct (Nat.ltb_spec 0 (List.length gs)) as [Hpos | Hzero].
  - assert (Hlen : List.length (List.map hidden_columns (hidden_gems gs))
                   = Nat.min 10 (List.length candidates)).
    { unfold hidden_gems, nlargest. rewrite List.length_map, List.length_firstn.
      destruct (sort_values_desc_ranked rec_ratio (List.filter (hidden_mask gs) gs))
        as (Hp & _).
      rewrite <- (Permutation_length Hp). reflexivity. }
    split; [exact Hlen | lia].
  - destruct gs; [reflexivity | simpl in Hzero; lia].
Qed.

(** ** The decades of the trend chart *)

Lemma StronglySorted_strengthen {A} (R R' : A -> A -> Prop) (l : list A) :
  StronglySorted R l ->
  List.NoDup l ->
  (forall a b, List.In a l -> List.In b l -> R a b -> a <> b -> R' a b) ->
  StronglySorted R' l.
Proof.
  induction 1 as [|x l Hs IH Hx]; intros Hnd HR; constructor.
  - apply IH; [inversion Hnd; assumption|].
    intros a b Ha Hb. apply HR; right; assumption.
  - rewrite List.Forall_forall in *. intros y Hy.
    apply HR; [left; reflexivity | right; exact Hy | auto |].
    intros ->. inversion Hnd. contradiction.
Qed.

Lemma ascending_length (a b : Z) (l : list Z) :
  StronglySorted Z.lt l ->
  (forall x, List.In x l -> a <= x <= b) ->
  Z.of_nat (List.length l) <= Z.max 0 (b - a + 1).
Proof.
  intros Hs. revert a. induction Hs as [|x l Hs IH Hx]; intros a Hin.
  - simpl. lia.
  - rewrite List.Forall_forall in Hx.
    pose proof (Hin x (or_introl eq_refl)) as Hxa.
    specialize (IH (x + 1)).
    assert (H : forall y, List.In y l -> x + 1 <= y <= b).
    { intros y Hy. specialize (Hx y Hy). specialize (Hin y (or_intror Hy)). lia. }
    specialize (IH H). cbn [List.length]. lia.
Qed.

(** X11. The decades of the trend chart of a filtered subset: each is a
    multiple of 10 that holds the year of some row listing a genre, hence
    lies between the decade of the lower year bound and the upper year
    bound; they come strictly ascending, and there are no more of them
    than decades touched by the year range. *)
Theorem decades_in_range (df : list row) (yr : Z * Z) (sm : Q) :
  let dff := df_filtered df yr sm in
  (forall d, List.In d (decades dff) ->
             exists z y r,
               d = Some z
               /\ z mod 10 = 0
               /\ fst yr / 10 * 10 <= z <= snd yr
               /\ List.In r (df_trends dff) /\ year r = Some y /\ z <= y <= z + 9)
  /\ StronglySorted decade_lt (decades dff)
  /\ Z.of_nat (List.length (decades dff))
     <= Z.max 0 (snd yr / 10 - fst yr / 10 + 1).
Proof.
  intros dff. destruct (decades_spec dff) as (Hnd & Hs & Hin).
  assert (Hd : forall d, List.In d (decades dff) ->
                 exists z y r,
                   d = Some z
                   /\ z mod 10 = 0
                   /\ fst yr / 10 * 10 <= z <= snd yr
                   /\ List.In r (df_trends dff) /\ year r = Some y /\ z <= y <= z + 9).
  { intros d Hd. apply Hin in Hd as (r & Hr & <-).
    destruct (decade_of_filtered df yr sm r Hr) as (y & Hy & -> & Hlo & Hhi).
    exists (y / 10 * 10), y, r. split; [reflexivity|].
    split; [apply Z.mod_mul; lia|].
    pose proof (Z.div_le_mono (fst yr) y 10 ltac:(lia) Hlo).
    pose proof (Z.mul_div_le y 10 ltac:(lia)).
    pose proof (Z.mod_pos_bound y 10 ltac:(lia)).
    pose proof (Z.div_mod y 10 ltac:(lia)).
    repeat split; try assumption; lia. }
  split; [exact Hd|].
  assert (Hlt : StronglySorted decade_lt (decades dff)).
  { apply (StronglySorted_strengthen _ _ _ Hs Hnd).
    intros a b Ha Hb Hab Hne.
    destruct (Hd a Ha) as (x & _ & _ & -> & _).
    destruct (Hd b Hb) as (y & _ & _ & -> & _).
    simpl in *. assert (x <> y) by congruence. lia. }
  split; [exact Hlt|].
  set (qs := List.map (fun d => match d with Some z => z / 10 | None => 0 end)
               (decades dff)).
  replace (List.length (decades dff)) with (List.length qs)
    by (unfold qs; apply List.length_map).
  apply ascending_length.
  - unfold qs. clear Hs Hnd Hin.
    induction Hlt as [|d l Hl IH Hdl]; simpl; constructor.
    + apply IH. intros d' Hd'. apply Hd. right. exact Hd'.
    + rewrite List.Forall_forall in *. intros q Hq.
      apply List.in_map_iff in Hq as (d' & <- & Hd').
      specialize (Hdl d' Hd').
      destruct (Hd d (or_introl eq_refl)) as (x & _ & _ & -> & Hx & _).
      destruct (Hd d' (or_intror Hd')) as (x' & _ & _ & -> & Hx' & _).
      simpl in Hdl.
      pose proof (Z.div_mod x 10 ltac:(lia)). pose proof (Z.div_mod x' 10 ltac:(lia)).
      lia.
  - intros q Hq. unfold qs in Hq. apply List.in_map_iff in Hq as (d & <- & Hd').
    destruct (Hd d Hd') as (z & _ & _ & -> & Hz & (Hlo & Hhi) & _).
    pose proof (Z.div_le_mono z (snd yr) 10 ltac:(lia) Hhi).
    pose proof (Z.div_mod z 10 ltac:(lia)).
    pose proof (Z.div_mod (fst yr) 10 ltac:(lia)).
    pose proof (Z.mod_pos_bound (fst yr) 10 ltac:(lia)).
    lia.
Qed.

(** ** The total of the genre grid *)

Lemma nat_sum_le {A} (h h' : A -> nat) (l : list A) :
  (forall x, List.In x l -> (h x <= h' x)%nat) ->
  (nat_sum (List.map h l) <= nat_sum (List.map h' l))%nat.
Proof.
  induction l as [|x l IH]; simpl; intros H; [lia|].
  specialize (IH (fun y Hy => H y (or_intror Hy))).
  specialize (H x (or_introl eq_refl)). lia.
Qed.

Lemma indicator_sum (x : string) (gs : list string) :
  List.NoDup gs ->
  (nat_sum (List.map (fun g => if String.eqb g x then 1%nat else 0%nat) gs) <= 1)%nat
  /\ (List.In x gs ->
      nat_sum (List.map (fun g => if String.eqb g x then 1%nat else 0%nat) gs) = 1%nat).
Proof.
  induction 1 as [|g gs Hg Hnd [IH1 IH2]]; simpl; [split; [lia | tauto]|].
  destruct (String.eqb_spec g x) as [-> | Hne].
  - assert (E : nat_sum (List.map (fun g => if String.eqb g x then 1%nat else 0%nat) gs) = 0%nat).
    { clear -Hg. induction gs as [|g gs IH]; simpl; [reflexivity|].
      destruct (String.eqb_spec g x) as [-> | _]; [exfalso; apply Hg; left; reflexivity|].
      apply IH. intros H. apply Hg. right. exact H. }
    rewrite E. split; [lia | reflexivity].
  - split; [exact IH1|]. intros [H | H]; [congruence | auto].
Qed.

(** The counts of distinct genres in a list add up to no more than its
    length, and to its length when every element is among the genres. *)
Lemma counts_of_distinct (gs l : list string) :
  List.NoDup gs ->
  (nat_sum (List.map (fun g => count_eq String.eqb g l) gs) <= List.length l)%nat
  /\ ((forall x, List.In x l -> List.In x gs) ->
      nat_sum (List.map (fun g => count_eq String.eqb g l) gs) = List.length l).
Proof.
  intros Hnd. induction l as [|x l [IH1 IH2]].
  - assert (E : nat_sum (List.map (fun g => count_eq String.eqb g []) gs) = 0%nat)
      by (clear; induction gs; simpl; auto).
    rewrite E. split; [simpl; lia | reflexivity].
  - assert (E : nat_sum (List.map (fun g => count_eq String.eqb g (x :: l)) gs)
                = (nat_sum (List.map (fun g => if String.eqb g x then 1%nat else 0%nat) gs)
                   + nat_sum (List.map (fun g => count_eq String.eqb g l) gs))%nat).
    { clear. induction gs as [|g gs IH]; simpl; [reflexivity|].
      rewrite IH. unfold count_eq. simpl. destruct (String.eqb g x); simpl; lia. }
    rewrite E. destruct (indicator_sum x gs Hnd) as [I1 I2]. split.
    + simpl. lia.
    + intros Hall. rewrite I2 by (apply Hall; left; reflexivity).
      rewrite IH2 by (intros y Hy; apply Hall; right; exact Hy). reflexivity.
Qed.

Lemma grid_sum (dff : list row) (ds : list (option Z)) (gs : list string) :
  nat_sum (List.map count (genre_counts_loop dff ds gs))
  = nat_sum (List.map
      (fun d => nat_sum (List.map
                   (fun g => count_eq String.eqb g (decade_genres dff d)) gs)) ds).
Proof.
  unfold genre_counts_loop. induction ds as [|d ds IH]; [reflexivity|].
  cbn [List.flat_map List.map nat_sum].
  rewrite List.map_app, nat_sum_app, IH, List.map_map. reflexivity.
Qed.

Lemma length_genres (l : list row) :
  List.length (List.flat_map genres_list l)
  = nat_sum (List.map (fun r => List.length (genres_list r)) l).
Proof.
  induction l as [|r l IH]; simpl; [reflexivity|].
  rewrite List.length_app, IH. reflexivity.
Qed.

(** X12. The grid of a filtered subset is built exactly when some genre
    occurs. Its counts then add up to no more than the number of genre
    occurrences in the rows listing a genre, and to exactly that number
    when the subset has at most 6 distinct genres: then no occurrence is
    left out of the chart. *)
Theorem grid_total (df : list row) (yr : Z * Z) (sm : Q) :
  let dff := df_filtered df yr sm in
  match genre_counts dff with
  | Some grid =>
      all_genres dff <> []
      /\ (nat_sum (List.map count grid) <= List.length (all_genres dff))%nat
      /\ ((List.length (unique String.eqb (all_genres dff)) <= 6)%nat ->
          nat_sum (List.map count grid) = List.length (all_genres dff))
  | None => all_genres dff = []
  end.
Proof.
  intros dff. unfold genre_counts.
  destruct (top_genres dff) as [|g0 G'] eqn:EG.
  { unfold all_genres. rewrite (top_genres_empty dff EG). reflexivity. }
  rewrite <- EG. set (G := top_genres dff). set (D := decades dff).
  destruct (most_frequent String.eqb String.eqb_eq 6 (all_genres dff))
    as (Gnd & Gin & Glen & _).
  fold (top_genres dff) in Gnd, Gin, Glen. fold G in Gnd, Gin, Glen.
  destruct (decades_spec dff) as (Dnd & _ & Din). fold D in Dnd, Din.
  assert (Htot : nat_sum (List.map (fun d => List.length (decade_genres dff d)) D)
                 = List.length (all_genres dff)).
  { unfold all_genres. rewrite length_genres.
    rewrite <- (nat_sum_by_decade _ D (df_trends dff) Dnd).
    - f_equal. apply List.map_ext. intros d. apply length_genres.
    - intros r Hr. destruct (decade_of_filtered df yr sm r Hr) as (y & _ & Hd & _).
      exists (y / 10 * 10). split; [exact Hd|]. apply Din. eauto. }
  split.
  { intros Hnil.
    assert (Hg0 : List.In g0 (all_genres dff)) by (apply Gin; unfold G; rewrite EG; left; reflexivity).
    rewrite Hnil in Hg0. destruct Hg0. }
  rewrite grid_sum, <- Htot. split.
  - apply nat_sum_le. intros d _. apply counts_of_distinct. exact Gnd.
  - intros Hfew. f_equal. apply List.map_ext. intros d.
    apply counts_of_distinct; [exact Gnd|].
    intros x Hx.
    assert (Hall : List.In x (all_genres dff)).
    { unfold decade_genres, decade_data in Hx. unfold all_genres.
      apply List.in_flat_map in Hx as (r & Hr & Hx).
      apply List.filter_In in Hr as [Hr _].
      apply List.in_flat_map. eauto. }
    apply (unique_In String.eqb String.eqb_eq) in Hall.
    assert (Hincl : List.incl (unique String.eqb (all_genres dff)) G).
    { apply List.NoDup_length_incl; [exact Gnd | lia |].
      intros z Hz. apply (unique_In String.eqb String.eqb_eq). apply Gin. exact Hz. }
    apply Hincl. exact Hall.
Qed.

Lemma grid_total_witness :
  let dff := df_filtered [gem_a; big_b] (2000, 2020) 0%Q in
  (List.length (unique String.eqb (all_genres dff)) <= 6)%nat
  /\ exists grid, genre_counts dff = Some grid
                  /\ nat_sum (List.map count grid) = List.length (all_genres dff).
Proof.
  intros dff. split; [vm_compute; lia|].
  pose proof (grid_total [gem_a; big_b] (2000, 2020) 0%Q) as H.
  cbv zeta in H. fold dff in H. destruct (genre_counts dff) as [grid|] eqn:E.
  - exists grid. split; [reflexivity|]. apply H. vm_compute. lia.
  - vm_compute in E. discriminate.
Defined.

(** ** More on search *)

Lemma re_special_lower (c : ascii) : re_special (to_lower c) = re_special c.
Proof. destruct c as [[] [] [] [] [] [] [] []]; reflexivity. Qed.

Lemma dot_lower (c : ascii) : Ascii.eqb (to_lower c) "." = Ascii.eqb c ".".
Proof. destruct c as [[] [] [] [] [] [] [] []]; reflexivity. Qed.

Lemma open_lower (c : ascii) : Ascii.eqb (to_lower c) "(" = Ascii.eqb c "(".
Proof. destruct c as [[] [] [] [] [] [] [] []]; reflexivity. Qed.

Lemma close_lower (c : ascii) : Ascii.eqb (to_lower c) ")" = Ascii.eqb c ")".
Proof. destruct c as [[] [] [] [] [] [] [] []]; reflexivity. Qed.

(** Two compilations that agree up to letter case. *)
Lemma re_compile_lower (p1 p2 : list ascii) :
  lower p1 = lower p2 ->
  forall depth,
    match re_compile_from depth p1, re_compile_from depth p2 with
    | Returns i1, Returns i2 => same_items i1 i2
    | Raises e1, Raises e2 => e1 = e2
    | NotModelled, NotModelled => True
    | _, _ => False
    end.
Proof.
  revert p2. induction p1 as [|c p1 IH]; intros [|d p2] H depth; try discriminate.
  - destruct depth; simpl; [constructor | reflexivity].
  - simpl in H. injection H as Hc Hp. simpl.
    rewrite <- (open_lower c), <- (open_lower d), <- (close_lower c),
      <- (close_lower d), <- (dot_lower c), <- (dot_lower d),
      <- (re_special_lower c), <- (re_special_lower d), Hc.
    destruct (Ascii.eqb (to_lower d) "("); [apply IH; exact Hp|].
    destruct (Ascii.eqb (to_lower d) ")").
    { destruct depth; [reflexivity | apply IH; exact Hp]. }
    specialize (IH p2 Hp depth).
    destruct (Ascii.eqb (to_lower d) ".").
    + destruct (re_compile_from depth p1), (re_compile_from depth p2);
        simpl; try exact IH. constructor. exact IH.
    + destruct (re_special (to_lower d)); [exact I|].
      destruct (re_compile_from depth p1), (re_compile_from depth p2);
        simpl; try exact IH. constructor; assumption.
Qed.

Lemma match_here_same (i1 i2 : list re_item) :
  same_items i1 i2 -> forall s, match_here i1 s = match_here i2 s.
Proof.
  induction 1 as [|a b i1 i2 Hab _ IH|i1 i2 _ IH]; intros s.
  - reflexivity.
  - destruct s as [|c s]; simpl; [reflexivity|]. rewrite Hab, IH. reflexivity.
  - destruct s as [|c s]; simpl; [reflexivity|]. rewrite IH. reflexivity.
Qed.

Lemma re_search_same (i1 i2 : list re_item) (s : list ascii) :
  same_items i1 i2 -> re_search i1 s = re_search i2 s.
Proof.
  intros H. induction s as [|c s IH]; simpl.
  - rewrite (match_here_same i1 i2 H). reflexivity.
  - rewrite (match_here_same i1 i2 H), IH. reflexivity.
Qed.

Lemma chars_empty (q : string) : chars q = [] <-> q = EmptyString.
Proof. destruct q; simpl; split; congruence. Qed.

(** X13. Search does not depend on the letter case of the query: two
    queries of ordinary characters and dots that differ by case only give
    the same result. *)
Theorem search_ignores_query_case (dff : list row) (q1 q2 : string) (res : list row) :
  results q1 dff = Returns res ->
  lower (chars q1) = lower (chars q2) ->
  results q2 dff = Returns res.
Proof.
  unfold results. intros Hres Hlow.
  destruct (String.eqb_spec q1 EmptyString) as [E1 | E1].
  - subst q1. destruct q2; [exact Hres | discriminate].
  - destruct (String.eqb_spec q2 EmptyString) as [E2 | E2].
    + subst q2. destruct q1; [congruence | discriminate].
    + pose proof (re_compile_lower _ _ Hlow 0%nat) as H. unfold chars in H.
      fold (re_compile (list_ascii_of_string q1)) in H.
      fold (re_compile (list_ascii_of_string q2)) in H.
      destruct (re_compile (list_ascii_of_string q1)) as [i1| |]; try discriminate.
      destruct (re_compile (list_ascii_of_string q2)) as [i2| |];
        [|destruct H|destruct H].
      rewrite <- Hres. f_equal. apply filter_ext_in'. intros r _.
      unfold str_contains. destruct (title r); [|reflexivity].
      symmetry. apply re_search_same. exact H.
Qed.

Lemma search_ignores_query_case_witness :
  results "GEM a" [gem_a; big_b] = Returns [gem_a].
Proof.
  apply (search_ignores_query_case [gem_a; big_b] "gem A" "GEM a" [gem_a]);
    reflexivity.
Defined.

(** X14. Searching for the title of a row finds that row, when the title
    is not empty and has no character with a regular-expression meaning. *)
Theorem search_finds_own_title (dff : list row) (r : row) (t : string) :
  List.In r dff ->
  title r = Some t ->
  t <> EmptyString ->
  plain_query t = true ->
  exists res, results t dff = Returns res /\ List.In r res.
Proof.
  intros Hr Ht Hne Hplain. unfold results.
  destruct (String.eqb_spec t EmptyString) as [E | _]; [contradiction|].
  unfold plain_query, chars in Hplain. rewrite (re_compile_plain _ Hplain).
  eexists. split; [reflexivity|]. apply List.filter_In. split; [exact Hr|].
  rewrite Ht. unfold str_contains. apply re_search_literal.
  exists [], []. rewrite List.app_nil_r. reflexivity.
Qed.

Lemma search_finds_own_title_witness :
  exists res, results "Big B" [gem_a; big_b] = Returns res /\ List.In big_b res.
Proof.
  apply (search_finds_own_title [gem_a; big_b] big_b "Big B").
  - right. left. reflexivity.
  - reflexivity.
  - discriminate.
  - reflexivity.
Defined.

(** The modelled search is the search of any engine that is the modelled
    one on the fragment. *)
Lemma results_by_fragment (matcher : string -> M (string -> bool))
  (search : string) (dff res : list row) :
  extends_fragment matcher ->
  results search dff = Returns res ->
  results_by matcher search dff = ret res.
Proof.
  intros Hext. unfold results, results_by.
  destruct (String.eqb search EmptyString).
  - intros E. injection E as <-. reflexivity.
  - specialize (Hext search). unfold fragment_matcher in Hext.
    destruct (re_compile (list_ascii_of_string search)) as [items| |];
      try discriminate.
    destruct Hext as (found' & -> & Hf). intros E. injection E as <-.
    simpl. unfold ret. f_equal. apply filter_ext_in'. intros r _.
    unfold str_contains. destruct (title r); [apply Hf | reflexivity].
Qed.

Lemma results_by_incl (matcher : string -> M (string -> bool)) (q : string)
  (dff res : list row) :
  results_by matcher q dff = ret res -> forall r, List.In r res -> List.In r dff.
Proof.
  unfold results_by. destruct (String.eqb q EmptyString).
  - intros E. injection E as <-. auto.
  - destruct (matcher q) as [e | found]; [discriminate|]. simpl.
    intros E. injection E as <-. intros r Hr. apply List.filter_In in Hr. tauto.
Qed.

(** X15. Whatever the query and whatever the regular-expression engine
    makes of it, when the search returns, every row shown by the search
    tab is the projection of a row of the dataset that passes the filter:
    its year is present and within the range, its score is present and
    reaches the minimum. *)
Theorem displayed_rows_pass_filter (matcher : string -> M (string -> bool))
  (df : list row) (yr : Z * Z) (sm : Q) (q : string) (res : list row)
  (d : display_row) :
  results_by matcher q (df_filtered df yr sm) = ret res ->
  List.In d (displayed res) ->
  exists r y s,
    List.In r df /\ d = display_cols r
    /\ display_year d = Some y /\ fst yr <= y <= snd yr
    /\ display_score d = Some s /\ (sm <= s)%Q.
Proof.
  intros Hres Hd. unfold displayed, head in Hd.
  assert (Hd' : List.In d (List.map display_cols res)).
  { apply (sort_values_desc_In display_score).
    rewrite <- (List.firstn_skipn 100). apply List.in_or_app. left. exact Hd. }
  apply List.in_map_iff in Hd' as (r & <- & Hr).
  apply (results_by_incl matcher q _ _ Hres) in Hr.
  unfold df_filtered in Hr. apply List.filter_In in Hr as [Hin Hm].
  apply filter_mask_spec in Hm as (y & s & Hy & Hs & Hlo & Hhi & Hle).
  exists r, y, s. simpl. repeat split; assumption.
Qed.

Lemma displayed_rows_pass_filter_witness :
  exists r y s,
    List.In r [gem_a; big_b] /\ display_cols gem_a = display_cols r
    /\ display_year (display_cols gem_a) = Some y /\ 2000 <= y <= 2020
    /\ display_score (display_cols gem_a) = Some s /\ (6 <= s)%Q.
Proof.
  apply (displayed_rows_pass_filter
           (fun q => ret (fun t => re_search (List.map ReLit (chars q)) (chars t)))
           [gem_a; big_b] (2000, 2020) 6%Q "gem" [gem_a]).
  - reflexivity.
  - left. reflexivity.
Defined.

(** ** The objects a run creates *)

Lemma get_set_col (name : string) (c : cell) (cols : list (string * cell)) :
  get_col name (set_col name c cols) = Some c.
Proof.
  induction cols as [|[n c'] cols IH]; simpl.
  - rewrite String.eqb_refl. reflexivity.
  - destruct (String.eqb n name) eqn:E; simpl; rewrite E; [reflexivity | exact IH].
Qed.

Lemma setitem_cells (name : string) (col : row -> cell) (l : nat) (s : store)
  (f : frame) :
  s !! l = Some f ->
  exists s' f',
    setitem name col l s = Some s'
    /\ s' !! l = Some f'
    /\ frame_rows f' = frame_rows f
    /\ (forall xr, List.In xr f' -> get_col name (snd xr) = Some (col (fst xr)))
    /\ forall k g, k <> l -> s !! k = Some g -> s' !! k = Some g.
Proof.
  intros Hl. unfold setitem. rewrite Hl. simpl.
  eexists _, _. split; [reflexivity|]. split; [apply lookup_insert_eq|].
  split; [|split].
  - unfold frame_rows. rewrite List.map_map. reflexivity.
  - intros xr Hxr. apply List.in_map_iff in Hxr as (xr0 & <- & _). simpl.
    apply get_set_col.
  - intros k g Hk Hg. rewrite lookup_insert_ne; [exact Hg | congruence].
Qed.

Lemma not_yet_there (s s' : store) (l : nat) :
  (forall k g, s !! k = Some g -> s' !! k = Some g) ->
  s' !! l = None -> s !! l = None.
Proof.
  intros K H. destruct (s !! l) as [g|] eqn:E; [|reflexivity].
  rewrite (K l g E) in H. discriminate.
Qed.

(** What one run of the script does to the store. *)
Lemma run_objects (df : nat) (yr : Z * Z) (sm : Q) (s : store) (f : frame) :
  s !! df = Some f ->
  exists objs s' fg ft,
    run df yr sm s = Some (objs, s')
    /\ (forall k g, s !! k = Some g -> s' !! k = Some g)
    /\ (s !! obj_df_filtered objs = None
        /\ s !! obj_df_gems objs = None
        /\ s !! obj_df_trends objs = None)
    /\ (obj_df_filtered objs <> obj_df_gems objs
        /\ obj_df_filtered objs <> obj_df_trends objs
        /\ obj_df_gems objs <> obj_df_trends objs)
    /\ s' !! obj_df_filtered objs
       = Some (List.filter (fun xr => filter_mask yr sm (fst xr)) f)
    /\ s' !! obj_df_gems objs = Some fg
    /\ frame_rows fg = df_gems (df_filtered (frame_rows f) yr sm)
    /\ (forall xr, List.In xr fg ->
                   get_col "rec_ratio" (snd xr)
                   = Some (CellQ (rec_ratio (add_rec_ratio (fst xr)))))
    /\ s' !! obj_df_trends objs = Some ft
    /\ frame_rows ft = df_trends (df_filtered (frame_rows f) yr sm)
    /\ (forall xr, List.In xr ft ->
                   get_col "decade" (snd xr) = Some (CellZ (decade_of (fst xr)))).
Proof.
  intros Hdf. unfold run.
  set (ff := List.filter (fun xr => filter_mask yr sm (fst xr)) f).
  destruct (getitem_mask_spec (filter_mask yr sm) df s f Hdf)
    as (m1 & s1 & -> & Hm1 & Hm1' & K1). simpl. fold ff in Hm1'.
  destruct (copy_spec m1 s1 _ Hm1') as (dff & s2 & -> & Hdff & Hdff' & K2). simpl.
  destruct (getitem_mask_spec gems_mask dff s2 _ Hdff')
    as (m2 & s3 & -> & Hm2 & Hm2' & K3). simpl.
  set (fg0 := List.filter (fun xr => gems_mask (fst xr)) ff) in *.
  destruct (copy_spec m2 s3 _ Hm2') as (dg & s4 & -> & Hdg & Hdg' & K4). simpl.
  unfold frame_len. rewrite Hdg'. simpl.
  pose proof (K4 _ _ (K3 _ _ Hdff')) as F4.
  assert (Ndg : dff <> dg) by (pose proof (K3 _ _ Hdff'); congruence).
  assert (K04 : forall k g, s !! k = Some g -> s4 !! k = Some g) by eauto.
  (* the object [df_gems] may receive its column *)
  match goal with
  | |- context [if ?c then ?a else ?b] =>
      assert (exists s5 fg, (if c then a else b) = Some s5
                /\ s5 !! dg = Some fg
                /\ frame_rows fg = frame_rows fg0
                /\ (forall xr, List.In xr fg ->
                               get_col "rec_ratio" (snd xr)
                               = Some (CellQ (rec_ratio (add_rec_ratio (fst xr)))))
                /\ forall k g, k <> dg -> s4 !! k = Some g -> s5 !! k = Some g)
        as (s5 & fg & -> & G5 & Grows & Gcells & K5)
  end.
  { destruct (0 <? List.length fg0)%nat eqn:Hlen.
    - destruct (setitem_cells "rec_ratio"
                  (fun r => CellQ (rec_ratio (add_rec_ratio r))) dg s4 _ Hdg')
        as (s5 & fg & E & H1 & H2 & H3 & H4).
      exists s5, fg. auto.
    - exists s4, fg0. split; [reflexivity|]. split; [exact Hdg'|].
      split; [reflexivity|]. split; [|auto].
      destruct fg0; [intros xr [] | discriminate]. }
  simpl.
  pose proof (K5 _ _ Ndg F4) as F5.
  destruct (getitem_mask_spec (fun r => (0 <? List.length (genres_list r))%nat)
              dff s5 _ F5) as (m3 & s6 & -> & Hm3 & Hm3' & K6). simpl.
  destruct (copy_spec m3 s6 _ Hm3') as (dt & s7 & -> & Hdt & Hdt' & K7). simpl.
  destruct (setitem_cells "decade" (fun r => CellZ (decade_of r)) dt s7 _ Hdt')
    as (s8 & ft & -> & T8 & Trows & Tcells & K8). simpl.
  pose proof (K7 _ _ (K6 _ _ F5)) as F7. pose proof (K7 _ _ (K6 _ _ G5)) as G7.
  assert (Ndt : dff <> dt /\ dg <> dt).
  { pose proof (K6 _ _ F5). pose proof (K6 _ _ G5). split; congruence. }
  assert (Hs4 : forall k g, s !! k = Some g -> k <> dg).
  { intros k g Hk ->. pose proof (K3 _ _ (K2 _ _ (K1 _ _ Hk))). congruence. }
  assert (K07 : forall k g, s !! k = Some g -> s7 !! k = Some g).
  { intros k g Hk. apply K7, K6, K5; [exact (Hs4 k g Hk) | exact (K04 k g Hk)]. }
  assert (Hs7 : forall k g, s !! k = Some g -> k <> dt).
  { intros k g Hk ->. pose proof (K6 _ _ (K5 _ _ (Hs4 _ _ Hk) (K04 _ _ Hk))).
    congruence. }
  exists {| obj_df_filtered := dff; obj_df_gems := dg; obj_df_trends := dt |},
    s8, fg, ft. simpl.
  split; [reflexivity|]. split.
  { intros k g Hk. apply K8; [exact (Hs7 k g Hk) | exact (K07 k g Hk)]. }
  split.
  { split; [|split].
    - apply (not_yet_there s s1); assumption.
    - destruct (s !! dg) as [g|] eqn:E; [|reflexivity].
      exfalso. exact (Hs4 dg g E eq_refl).
    - destruct (s !! dt) as [g|] eqn:E; [|reflexivity].
      exfalso. exact (Hs7 dt g E eq_refl). }
  split; [tauto|].
  split; [apply K8; [tauto | exact F7]|].
  split; [apply K8; [tauto | exact G7]|].
  split.
  { rewrite Grows. etransitivity; [apply (frame_rows_filter gems_mask)|].
    unfold df_gems, df_filtered. f_equal. apply frame_rows_filter. }
  split; [exact Gcells|]. split; [exact T8|]. split; [|exact Tcells].
  rewrite Trows.
  etransitivity;
    [apply (frame_rows_filter (fun r => (0 <? List.length (genres_list r))%nat))|].
  unfold df_trends, df_filtered. f_equal. apply frame_rows_filter.
Qed.

(** X16. A run of the script changes no object that existed before it:
    every frame of the store is found again unchanged, and the frames
    [df_filtered], [df_gems] and [df_trends] are three new objects,
    different from each other. *)
Theorem run_keeps_existing_objects (df : nat) (yr : Z * Z) (sm : Q) (s : store)
  (f : frame) :
  s !! df = Some f ->
  exists objs s',
    run df yr sm s = Some (objs, s')
    /\ (forall k g, s !! k = Some g -> s' !! k = Some g)
    /\ (s !! obj_df_filtered objs = None
        /\ s !! obj_df_gems objs = None
        /\ s !! obj_df_trends objs = None)
    /\ (obj_df_filtered objs <> obj_df_gems objs
        /\ obj_df_filtered objs <> obj_df_trends objs
        /\ obj_df_gems objs <> obj_df_trends objs).
Proof.
  intros Hdf.
  destruct (run_objects df yr sm s f Hdf)
    as (objs & s' & fg & ft & Hrun & Hkeep & Hnew & Hdist & _).
  exists objs, s'. repeat split; try assumption; tauto.
Qed.

Lemma run_keeps_existing_objects_witness :
  let f := [(gem_a, []); (big_b, [])] in
  let s : store := {[ 0%nat := f ]} in
  s !! 0%nat = Some f
  /\ exists objs s',
       run 0%nat (2000, 2020) 0%Q s = Some (objs, s')
       /\ (forall k g, s !! k = Some g -> s' !! k = Some g)
       /\ (s !! obj_df_filtered objs = None
           /\ s !! obj_df_gems objs = None
           /\ s !! obj_df_trends objs = None)
       /\ (obj_df_filtered objs <> obj_df_gems objs
           /\ obj_df_filtered objs <> obj_df_trends objs
           /\ obj_df_gems objs <> obj_df_trends objs).
Proof.
  intros f s. split; [reflexivity|].
  apply (run_keeps_existing_objects 0%nat (2000, 2020) 0%Q s f). reflexivity.
Defined.

(** X17. After a run, the object [df_filtered] holds the rows of the
    loaded frame that pass the filter, with the columns they had; the
    object [df_gems] holds the rows of the restricted population, each
    with its ratio in the column [rec_ratio]; the object [df_trends]
    holds the rows that list a genre, each with its decade in the column
    [decade]. *)
Theorem run_derived_frames (df : nat) (yr : Z * Z) (sm : Q) (s : store)
  (f : frame) :
  s !! df = Some f ->
  exists objs s' fg ft,
    run df yr sm s = Some (objs, s')
    /\ s' !! obj_df_filtered objs
       = Some (List.filter (fun xr => filter_mask yr sm (fst xr)) f)
    /\ s' !! obj_df_gems objs = Some fg
    /\ frame_rows fg = df_gems (df_filtered (frame_rows f) yr sm)
    /\ (forall xr, List.In xr fg ->
                   get_col "rec_ratio" (snd xr)
                   = Some (CellQ (rec_ratio (add_rec_ratio (fst xr)))))
    /\ s' !! obj_df_trends objs = Some ft
    /\ frame_rows ft = df_trends (df_filtered (frame_rows f) yr sm)
    /\ (forall xr, List.In xr ft ->
                   get_col "decade" (snd xr) = Some (CellZ (decade_of (fst xr)))).
Proof.
  intros Hdf.
  destruct (run_objects df yr sm s f Hdf)
    as (objs & s' & fg & ft & Hrun & _ & _ & _ & H).
  exists objs, s', fg, ft. split; [exact Hrun | exact H].
Qed.

Lemma run_derived_frames_witness :
  let f := [(gem_a, []); (big_b, [])] in
  let s : store := {[ 0%nat := f ]} in
  s !! 0%nat = Some f
  /\ exists objs s' fg ft,
       run 0%nat (2000, 2020) 0%Q s = Some (objs, s')
       /\ s' !! obj_df_filtered objs
          = Some (List.filter (fun xr => filter_mask (2000, 2020) 0%Q (fst xr)) f)
       /\ s' !! obj_df_gems objs = Some fg
       /\ frame_rows fg = df_gems (df_filtered (frame_rows f) (2000, 2020) 0%Q)
       /\ (forall xr, List.In xr fg ->
                      get_col "rec_ratio" (snd xr)
                      = Some (CellQ (rec_ratio (add_rec_ratio (fst xr)))))
       /\ s' !! obj_df_trends objs = Some ft
       /\ frame_rows ft = df_trends (df_filtered (frame_rows f) (2000, 2020) 0%Q)
       /\ (forall xr, List.In xr ft ->
                      get_col "decade" (snd xr) = Some (CellZ (decade_of (fst xr)))).
Proof.
  intros f s. split; [reflexivity|].
  apply (run_derived_frames 0%nat (2000, 2020) 0%Q s f). reflexivity.
Defined.

(** ** More on the decoder *)

(** X18. A text that [literal_eval] rejects decodes to the empty list:
    the error is swallowed, whatever it is. *)
Theorem safe_eval_swallows_errors (le : string -> M pyval) (s : string) (e : exn) :
  le s = inl e ->
  safe_eval le (PAtom (AStr s)) = PList [].
Proof.
  intros H. unfold safe_eval, safe_eval_try. simpl.
  destruct (String.eqb s "[]" || String.eqb s EmptyString)%bool; [reflexivity|].
  rewrite H. reflexivity.
Qed.

Lemma safe_eval_swallows_errors_witness :
  literal_eval "[Action, Comedy" = inl SyntaxError
  /\ safe_eval literal_eval (PAtom (AStr "[Action, Comedy")) = PList [].
Proof.
  split; [reflexivity|].
  apply (safe_eval_swallows_errors literal_eval "[Action, Comedy" SyntaxError).
  reflexivity.
Defined.

(** X19. On a value that is not a text the decoder returns a list of at
    most one element, and it returns the value itself only for the empty
    list and for a list of one element that is not missing; a list of two
    elements or more comes back empty, and so does every value that is
    not a list. *)
Theorem safe_eval_non_text (le : string -> M pyval) (val : pyval) :
  is_str val = false ->
  exists l,
    safe_eval le val = PList l
    /\ (List.length l <= 1)%nat
    /\ (safe_eval le val = val <->
        val = PList [] \/ exists a, val = PList [a] /\ atom_isna a = false)
    /\ (forall a b l', val = PList (a :: b :: l') -> l = [])
    /\ (is_list val = false -> l = []).
Proof.
  intros Hs.
  cut (exists l,
          safe_eval le val = PList l
          /\ (List.length l <= 1)%nat
          /\ (safe_eval le val = val <->
              val = PList [] \/ exists a, val = PList [a] /\ atom_isna a = false)).
  { intros (l & Hl & Hlen & Hiff). exists l.
    split; [exact Hl|]. split; [exact Hlen|]. split; [exact Hiff|]. split.
    - intros a b l' ->. rewrite safe_eval_list in Hl. congruence.
    - intros Hnl. destruct val as [a | l0 | l0]; [| discriminate |].
      + destruct a; try discriminate;
          unfold safe_eval, safe_eval_try in Hl; simpl in Hl; congruence.
      + unfold safe_eval, safe_eval_try in Hl. simpl in Hl. congruence. }
  destruct val as [a | l | l].
  - exists []. destruct a; try discriminate; (split; [reflexivity|]);
      (split; [simpl; lia|]);
      (split; [discriminate | intros [H | (a' & H & _)]; discriminate]).
  - rewrite safe_eval_list. destruct l as [|a [|b l]].
    + exists []. split; [reflexivity|]. split; [simpl; lia|]. tauto.
    + destruct (atom_isna a) eqn:Ha.
      * exists []. split; [reflexivity|]. split; [simpl; lia|].
        split; [discriminate|].
        intros [H | (a' & H & Ha')]; [discriminate|].
        injection H as <-. congruence.
      * exists [a]. split; [reflexivity|]. split; [simpl; lia|].
        split; [eauto | reflexivity].
    + exists []. split; [reflexivity|]. split; [simpl; lia|].
      split; [discriminate | intros [H | (a' & H & _)]; discriminate].
  - exists []. split; [reflexivity|]. split; [simpl; lia|].
    split; [discriminate | intros [H | (a' & H & _)]; discriminate].
Qed.

Lemma safe_eval_non_text_witness :
  exists l,
    safe_eval literal_eval (PList [AStr "Action"]) = PList l
    /\ (List.length l <= 1)%nat
    /\ (safe_eval literal_eval (PList [AStr "Action"]) = PList [AStr "Action"] <->
        PList [AStr "Action"] = PList []
        \/ exists a, PList [AStr "Action"] = PList [a] /\ atom_isna a = false)
    /\ (forall a b l', PList [AStr "Action"] = PList (a :: b :: l') -> l = [])
    /\ (is_list (PList [AStr "Action"]) = false -> l = []).
Proof.
  apply (safe_eval_non_text literal_eval (PList [AStr "Action"])). reflexivity.
Defined.

(** ** The medians and the search table, once more *)

(** X20. Both medians of the hidden-gems population are middle values:
    at least half of its rows have no more members than the median of
    members and at least half have no fewer, and likewise for the ratio. *)
Theorem medians_are_middle_values (dff : list row) (mm mr : Q) :
  let gs := List.map add_rec_ratio (df_gems dff) in
  median_members gs = Some mm ->
  median_ratio gs = Some mr ->
  (List.length gs
   <= 2 * List.length (List.filter
                         (fun g => cell_test (fun x => Qle_bool x mm) (members_cell g)) gs))%nat
  /\ (List.length gs
      <= 2 * List.length (List.filter
                            (fun g => cell_test (Qle_bool mm) (members_cell g)) gs))%nat
  /\ (List.length gs
      <= 2 * List.length (List.filter
                            (fun g => cell_test (fun x => Qle_bool x mr) (rec_ratio g)) gs))%nat
  /\ (List.length gs
      <= 2 * List.length (List.filter
                            (fun g => cell_test (Qle_bool mr) (rec_ratio g)) gs))%nat.
Proof.
  intros gs Hmm Hmr.
  assert (Hm : List.length (dropna (List.map members_cell gs)) = List.length gs).
  { apply dropna_all_some. intros g Hg.
    destruct (df_gems_rows dff g Hg) as (_ & c & m & _ & Hmem & _).
    unfold members_cell. rewrite Hmem. simpl. eauto. }
  assert (Hr : List.length (dropna (List.map rec_ratio gs)) = List.length gs).
  { apply dropna_all_some. intros g Hg.
    destruct (df_gems_rows dff g Hg) as (_ & c & m & _ & _ & _ & Hrat). eauto. }
  destruct (median_middle _ mm Hmm) as [M1 M2].
  destruct (median_middle _ mr Hmr) as [R1 R2].
  rewrite Hm in M1, M2. rewrite Hr in R1, R2.
  unfold cell_test.
  rewrite !(filter_length_dropna members_cell), !(filter_length_dropna rec_ratio).
  auto.
Qed.

Lemma medians_are_middle_values_witness :
  let gs := List.map add_rec_ratio (df_gems [gem_a; big_b]) in
  (List.length gs
   <= 2 * List.length (List.filter
                         (fun g => cell_test (fun x => Qle_bool x (1000150 # 2))
                                     (members_cell g)) gs))%nat
  /\ (List.length gs
      <= 2 * List.length (List.filter
                            (fun g => cell_test (Qle_bool (1000150 # 2))
                                        (members_cell g)) gs))%nat
  /\ (List.length gs
      <= 2 * List.length (List.filter
                            (fun g => cell_test (fun x => Qle_bool x (110000000 # 300000000))
                                        (rec_ratio g)) gs))%nat
  /\ (List.length gs
      <= 2 * List.length (List.filter
                            (fun g => cell_test (Qle_bool (110000000 # 300000000))
                                        (rec_ratio g)) gs))%nat.
Proof.
  apply (medians_are_middle_values [gem_a; big_b] (1000150 # 2) (110000000 # 300000000));
    vm_compute; reflexivity.
Defined.

(** X21. With 100 matches or fewer the search tab shows them all: the
    table is a rearrangement of the matches, none dropped, none added. *)
Theorem displayed_shows_all (res : list row) :
  (List.length res <= 100)%nat ->
  Permutation (List.map display_cols res) (displayed res).
Proof.
  intros Hlen. unfold displayed, head.
  destruct (sort_values_desc_ranked display_score (List.map display_cols res))
    as (Hp & _).
  rewrite List.firstn_all2; [exact Hp|].
  rewrite <- (Permutation_length Hp), List.length_map. exact Hlen.
Qed.

Lemma displayed_shows_all_witness :
  Permutation (List.map display_cols [gem_a; big_b]) (displayed [gem_a; big_b]).
Proof.
  apply (displayed_shows_all [gem_a; big_b]). simpl. lia.
Defined.
